(** * director: task orchestration and subtask execution engine

    A shallow embedding of the worker loop ([worker.ts]: [runStagehand],
    [executeStep], [getNextStep], [executeSubtask]), of the id assignment of
    [planner.ts] ([createTaskPlan]) and of the [EXECUTE_WORKER_TASK] handler
    of [route.ts], followed by the properties of the engine.

    Conventions of the embedding.
    - JavaScript strings are [string]s of 8-bit characters; [toLowerCase]
      acts on the letters A-Z.
    - JavaScript numbers that count retries are integers ([Z]); lengths of
      arrays are [nat].
    - A value thrown by JavaScript is a [Thrown]; code that can throw lives
      in the monad [M], which threads the mutable locals of [executeSubtask]
      together with a trace of the calls made to the outside world.  A
      mutation made before a [throw] is visible in the handler, as in
      JavaScript.
    - The language model behind [generateObject] and the browser session
      behind [Stagehand] are external: an [Env] gives, for the n-th call,
      what that call returns or throws. *)

From Stdlib Require Import String Ascii List ZArith Lia Bool PeanoNat DecimalString.
Import ListNotations.
Local Open Scope string_scope.

(* ================================================================= *)
(** ** JavaScript primitives used by the engine *)

Module Js.

(** [String.prototype.toLowerCase], on the letters A-Z. *)
Definition lowerChar (c : ascii) : ascii :=
  let n := nat_of_ascii c in
  if ((65 <=? n) && (n <=? 90))%nat then ascii_of_nat (n + 32) else c.

Fixpoint toLowerCase (s : string) : string :=
  match s with
  | EmptyString => EmptyString
  | String c s' => String (lowerChar c) (toLowerCase s')
  end.

(** [s.includes(needle)]. *)
Fixpoint includes (s needle : string) : bool :=
  prefix needle s ||
  match s with
  | EmptyString => false
  | String _ s' => includes s' needle
  end.

(** The text a template literal prints for an integer. *)
Definition numToString (z : Z) : string :=
  NilZero.string_of_int (Z.to_int z).

(** A thrown value: an [Error] object with its message, or anything else,
    kept as the text [String(value)] gives. *)
Inductive Thrown : Type :=
| ThrownError (message : string)
| ThrownValue (stringified : string).

(** [(error instanceof Error ? error : new Error(String(error))).message] *)
Definition errorMessage (error : Thrown) : string :=
  match error with
  | ThrownError message => message
  | ThrownValue stringified => stringified
  end.

(** [error instanceof Error ? error.message : "Unknown error"] *)
Definition messageOrUnknown (error : Thrown) : string :=
  match error with
  | ThrownError message => message
  | ThrownValue _ => "Unknown error"
  end.

(** A value of type [any] returned by a browser call. *)
Inductive Payload : Type :=
| PUndefined
| PNull
| PString (s : string)
| PArray (items : list string)
| PObject (fields : list (string * string)).

(** Truthiness, as tested by [if (v)] and [a && v]. *)
Definition truthy (v : Payload) : bool :=
  match v with
  | PUndefined | PNull => false
  | PString s => negb (String.eqb s "")
  | PArray _ | PObject _ => true
  end.

End Js.
Import Js.

(* ================================================================= *)
(** ** Statuses shared by subtasks and worker results *)

(** [Subtask.status] of [planner.ts].  [WorkerResult.status] of [worker.ts]
    is declared as the sub-union ["DONE" | "FAILED"] of the same strings and
    is passed as a subtask status to [updateSubtaskStatus]. *)
Module Status.
Inductive t : Type := PENDING | IN_PROGRESS | DONE | FAILED.

Definition eqb (a b : t) : bool :=
  match a, b with
  | PENDING, PENDING | IN_PROGRESS, IN_PROGRESS
  | DONE, DONE | FAILED, FAILED => true
  | _, _ => false
  end.
End Status.

(* ================================================================= *)
(** ** worker.ts *)

Module Worker.

(** [BrowserStep["tool"]] *)
Inductive Tool : Type :=
| GOTO | ACT | EXTRACT | OBSERVE | CLOSE | WAIT | NAVBACK | SCREENSHOT
| DONE | FAIL.

Definition tool_eqb (a b : Tool) : bool :=
  match a, b with
  | GOTO, GOTO | ACT, ACT | EXTRACT, EXTRACT | OBSERVE, OBSERVE
  | CLOSE, CLOSE | WAIT, WAIT | NAVBACK, NAVBACK
  | SCREENSHOT, SCREENSHOT | DONE, DONE | FAIL, FAIL => true
  | _, _ => false
  end.

(** The text of a tool inside a template literal. *)
Definition toolName (t : Tool) : string :=
  match t with
  | GOTO => "GOTO" | ACT => "ACT" | EXTRACT => "EXTRACT"
  | OBSERVE => "OBSERVE" | CLOSE => "CLOSE" | WAIT => "WAIT"
  | NAVBACK => "NAVBACK" | SCREENSHOT => "SCREENSHOT"
  | DONE => "DONE" | FAIL => "FAIL"
  end.

(** [interface BrowserStep]; the optional [stepNumber] is never written
    or read by the worker and is left out. *)
Record BrowserStep : Type := mkStep {
  text : string;
  reasoning : string;
  tool : Tool;
  instruction : string
}.

(** [interface WorkerResult]; an optional field that a result literal
    does not mention is [None]. *)
Record WorkerResult : Type := mkResult {
  res_status : Status.t;
  res_steps : list BrowserStep;
  res_extraction : option Payload;
  res_error : option string;
  res_retryCount : Z
}.

(** *** The outside world *)

Inductive OracleReply : Type :=
| OracleObject (object : BrowserStep)   (* [result.object] of generateObject *)
| OracleThrows (error : Thrown).

Inductive ActReply : Type :=
| ActReturns (value : Payload)
| ActThrows (error : Thrown).

(** [generateObject n]: what the n-th request to the language model
    yields.  [stagehand n method instruction]: what the n-th browser
    session does for [method], from [stagehand.init()] to the [finally]
    block of [runStagehand]. *)
Record Env : Type := mkEnv {
  generateObject : nat -> OracleReply;
  stagehand : nat -> Tool -> string -> ActReply
}.

(** What [executeSubtask] does to the outside world, in order. *)
Inductive Event : Type :=
| EvDecide (previousSteps : list BrowserStep)  (* generateObject request *)
| EvExec (step : BrowserStep)                  (* executeStep(step) *)
| EvSleep (ms : Z).                            (* setTimeout(resolve, ms) *)

(** *** Mutable state of one call of [executeSubtask] *)

Record State : Type := mkState {
  steps : list BrowserStep;
  extraction : Payload;
  retryCount : Z;
  lastError : option string;          (* message of the Error, or null *)
  currentScreenshot : Payload;
  currentUrl : string;
  previousExtraction : Payload;
  recentActionHistory : list (Tool * string);
  isSubtaskComplete : bool;
  oracleCalls : nat;
  stagehandCalls : nat;
  trace : list Event
}.

Definition set_steps (v : list BrowserStep) (st : State) : State :=
  mkState v (extraction st) (retryCount st) (lastError st)
    (currentScreenshot st) (currentUrl st) (previousExtraction st)
    (recentActionHistory st) (isSubtaskComplete st) (oracleCalls st)
    (stagehandCalls st) (trace st).

Definition set_extraction (v : Payload) (st : State) : State :=
  mkState (steps st) v (retryCount st) (lastError st)
    (currentScreenshot st) (currentUrl st) (previousExtraction st)
    (recentActionHistory st) (isSubtaskComplete st) (oracleCalls st)
    (stagehandCalls st) (trace st).

Definition set_retryCount (v : Z) (st : State) : State :=
  mkState (steps st) (extraction st) v (lastError st)
    (currentScreenshot st) (currentUrl st) (previousExtraction st)
    (recentActionHistory st) (isSubtaskComplete st) (oracleCalls st)
    (stagehandCalls st) (trace st).

Definition set_lastError (v : option string) (st : State) : State :=
  mkState (steps st) (extraction st) (retryCount st) v
    (currentScreenshot st) (currentUrl st) (previousExtraction st)
    (recentActionHistory st) (isSubtaskComplete st) (oracleCalls st)
    (stagehandCalls st) (trace st).

Definition set_currentScreenshot (v : Payload) (st : State) : State :=
  mkState (steps st) (extraction st) (retryCount st) (lastError st)
    v (currentUrl st) (previousExtraction st)
    (recentActionHistory st) (isSubtaskComplete st) (oracleCalls st)
    (stagehandCalls st) (trace st).

Definition set_currentUrl (v : string) (st : State) : State :=
  mkState (steps st) (extraction st) (retryCount st) (lastError st)
    (currentScreenshot st) v (previousExtraction st)
    (recentActionHistory st) (isSubtaskComplete st) (oracleCalls st)
    (stagehandCalls st) (trace st).

Definition set_previousExtraction (v : Payload) (st : State) : State :=
  mkState (steps st) (extraction st) (retryCount st) (lastError st)
    (currentScreenshot st) (currentUrl st) v
    (recentActionHistory st) (isSubtaskComplete st) (oracleCalls st)
    (stagehandCalls st) (trace st).

Definition set_recentActionHistory (v : list (Tool * string)) (st : State)
  : State :=
  mkState (steps st) (extraction st) (retryCount st) (lastError st)
    (currentScreenshot st) (currentUrl st) (previousExtraction st)
    v (isSubtaskComplete st) (oracleCalls st)
    (stagehandCalls st) (trace st).

Definition set_isSubtaskComplete (v : bool) (st : State) : State :=
  mkState (steps st) (extraction st) (retryCount st) (lastError st)
    (currentScreenshot st) (currentUrl st) (previousExtraction st)
    (recentActionHistory st) v (oracleCalls st)
    (stagehandCalls st) (trace st).

Definition set_oracleCalls (v : nat) (st : State) : State :=
  mkState (steps st) (extraction st) (retryCount st) (lastError st)
    (currentScreenshot st) (currentUrl st) (previousExtraction st)
    (recentActionHistory st) (isSubtaskComplete st) v
    (stagehandCalls st) (trace st).

Definition set_stagehandCalls (v : nat) (st : State) : State :=
  mkState (steps st) (extraction st) (retryCount st) (lastError st)
    (currentScreenshot st) (currentUrl st) (previousExtraction st)
    (recentActionHistory st) (isSubtaskComplete st) (oracleCalls st)
    v (trace st).

Definition set_trace (v : list Event) (st : State) : State :=
  mkState (steps st) (extraction st) (retryCount st) (lastError st)
    (currentScreenshot st) (currentUrl st) (previousExtraction st)
    (recentActionHistory st) (isSubtaskComplete st) (oracleCalls st)
    (stagehandCalls st) v.

(** *** The monad of [executeSubtask]: state that survives a throw *)

Definition M (A : Type) : Type := State -> (Thrown + A) * State.

Definition ret {A} (a : A) : M A := fun st => (inr a, st).

Definition bind {A B} (m : M A) (k : A -> M B) : M B :=
  fun st =>
    match m st with
    | (inl e, st') => (inl e, st')
    | (inr a, st') => k a st'
    end.

Definition throw {A} (e : Thrown) : M A := fun st => (inl e, st).

(** [try { body } catch (e) { handler e }] *)
Definition try_catch {A} (body : M A) (handler : Thrown -> M A) : M A :=
  fun st =>
    match body st with
    | (inl e, st') => handler e st'
    | (inr a, st') => (inr a, st')
    end.

Definition get : M State := fun st => (inr st, st).

Definition modify (f : State -> State) : M unit := fun st => (inr tt, f st).

Definition emit (ev : Event) : M unit :=
  modify (fun st => set_trace (trace st ++ [ev]) st).

Declare Scope worker_scope.
Delimit Scope worker_scope with worker.
Notation "x <- m ;; k" := (bind m (fun x => k))
  (at level 61, m at next level, right associativity) : worker_scope.
Notation "m ;; k" := (bind m (fun _ => k))
  (at level 61, right associativity) : worker_scope.
Local Open Scope worker_scope.

(** [steps.push(step)] *)
Definition pushStep (step : BrowserStep) : M unit :=
  modify (fun st => set_steps (steps st ++ [step]) st).

(** [await new Promise(resolve => setTimeout(resolve, ms))] *)
Definition sleep (ms : Z) : M unit := emit (EvSleep ms).

(** *** Constants of [executeSubtask] *)

Definition MAX_STEPS : nat := 15.
Definition MAX_HISTORY : nat := 5.
Definition MAX_DUPLICATES : nat := 2.
Definition defaultMaxRetries : Z := 3%Z.

(** How one pass through the body of the [while] loop ends: at its end or
    by [continue], or by a [return] of the result. *)
Inductive Control : Type :=
| Continue
| Return (result : WorkerResult).

(** How the [while] loop ends.  [FuelExhausted] belongs to the embedding
    only: the loop is unrolled a given number of times. *)
Inductive LoopExit : Type :=
| Returned (result : WorkerResult)
| LoopEnded
| FuelExhausted.

(** The statement of [executeSubtask] that produced its result. *)
Inductive Origin : Type :=
| ReturnInLoop      (* a [return] inside the loop body or its handler *)
| AfterLoop         (* the [return] that follows the loop *)
| OuterCatch.       (* the [return] of the outer handler *)

(** What awaiting [executeSubtask] gives. *)
Inductive Outcome : Type :=
| Resolves (origin : Origin) (result : WorkerResult)
| Rejects (error : Thrown)
| Unfinished.

Section WithEnv.

Variable env : Env.

(** *** runStagehand and executeStep *)

(** [runStagehand]: DONE and FAIL are answered in process, with
    [{ status, message: instruction }]; every other method opens a browser
    session and dispatches on the method there ([stagehand env]). *)
Definition runStagehand (method : Tool) (instr : string) : M Payload :=
  match method with
  | DONE => ret (PObject [("status", "DONE"); ("message", instr)])
  | FAIL => ret (PObject [("status", "FAILED"); ("message", instr)])
  | _ =>
      st <- get ;;
      modify (set_stagehandCalls (S (stagehandCalls st))) ;;
      match stagehand env (stagehandCalls st) method instr with
      | ActReturns value => ret value
      | ActThrows error => throw error
      end
  end.

(** [executeStep]: logs the step and runs its tool with its instruction. *)
Definition executeStep (step : BrowserStep) : M Payload :=
  emit (EvExec step) ;;
  runStagehand (tool step) (instruction step).

(** *** getNextStep *)

(** The completion language tested by [getNextStep] and by
    [executeSubtask]. *)
Definition hasCompletionLanguage (step : BrowserStep) : bool :=
  includes (toLowerCase (text step)) "task complete" ||
  includes (toLowerCase (text step)) "goal achieved" ||
  includes (toLowerCase (text step)) "subtask complete" ||
  includes (toLowerCase (reasoning step)) "task complete" ||
  includes (toLowerCase (reasoning step)) "goal achieved" ||
  includes (toLowerCase (reasoning step)) "subtask complete".

Definition convertedDoneStep (nextStep : BrowserStep) : BrowserStep :=
  {| text := "Subtask completed successfully";
     reasoning := "The goal for this subtask has been achieved";
     tool := DONE;
     instruction := "Subtask complete: " ++ text nextStep |}.

Definition fallbackStep : BrowserStep :=
  {| text := "Failed to determine next step, taking a screenshot to reassess";
     reasoning := "Error occurred in step generation, need to capture current state to recover";
     tool := SCREENSHOT;
     instruction := "" |}.

(** [getNextStep]: one request to the language model, whose object is
    returned as it is, or as a DONE step when it carries completion
    language without the DONE tool; when the request throws, the fallback
    step is returned.  The text of the prompt (built from the goals, the
    steps so far, the URL, the screenshot and [hasPossibleLoop]) only
    reaches the language model and is not part of the embedding. *)
Definition getNextStep : M BrowserStep :=
  try_catch
    (st <- get ;;
     emit (EvDecide (steps st)) ;;
     modify (set_oracleCalls (S (oracleCalls st))) ;;
     match generateObject env (oracleCalls st) with
     | OracleThrows error => throw error
     | OracleObject nextStep =>
         if negb (tool_eqb (tool nextStep) DONE)
            && hasCompletionLanguage nextStep
         then ret (convertedDoneStep nextStep)
         else ret nextStep
     end)
    (fun _ => ret fallbackStep).

(** *** hasPossibleLoop *)

(** [array.slice(-n)]: the last [n] elements, or all of them. *)
Definition sliceLast {A} (n : nat) (l : list A) : list A :=
  skipn (length l - n) l.

(** [new Set(strings).size] *)
Definition distinctCount (l : list string) : nat :=
  length (nodup string_dec l).

Definition stuckPhrases : list string :=
  ["still"; "again"; "retry"; "same"; "another attempt"; "try once more"].

(** The callback of [recentSteps.some]. *)
Definition mentionsStuck (step : BrowserStep) : bool :=
  existsb (fun phrase =>
             includes (toLowerCase (text step)) phrase
             || includes (toLowerCase (reasoning step)) phrase)
          stuckPhrases.

(** [hasPossibleLoop]: whether the prompt of [getNextStep] carries the
    warning about repeated actions.  It looks at the last three of the
    previous steps. *)
Definition hasPossibleLoop (steps : list BrowserStep) : bool :=
  if (length steps <? 3)%nat then false
  else
    let recentSteps := sliceLast 3 steps in
    let allSameTool :=
      match recentSteps with
      | [] => true
      | first :: _ =>
          forallb (fun step => tool_eqb (tool step) (tool first)) recentSteps
      end in
    let uniqueInstructions := distinctCount (map instruction recentSteps) in
    let hasRepeatedInstructions :=
      (uniqueInstructions <? length recentSteps)%nat in
    let containsStuckPhrases := existsb mentionsStuck recentSteps in
    (allSameTool && hasRepeatedInstructions) || containsStuckPhrases.

(** *** isRepeatingAction *)

(** [history.tool === step.tool && history.instruction === step.instruction] *)
Definition sameAction (step : BrowserStep) (history : Tool * string) : bool :=
  tool_eqb (fst history) (tool step)
  && String.eqb (snd history) (instruction step).

(** [isRepeatingAction]: counts the entries of the history equal to the
    action of [step], then pushes the action and shifts the history when it
    holds more than [MAX_HISTORY] entries. *)
Definition isRepeatingAction (step : BrowserStep) : M bool :=
  st <- get ;;
  let duplicate :=
    length (filter (sameAction step) (recentActionHistory st)) in
  modify (fun st =>
            set_recentActionHistory
              (recentActionHistory st ++ [(tool step, instruction step)])
              st) ;;
  st' <- get ;;
  (if (MAX_HISTORY <? length (recentActionHistory st'))%nat
   then modify (set_recentActionHistory (tl (recentActionHistory st')))
   else ret tt) ;;
  ret (MAX_DUPLICATES <=? duplicate)%nat.

(** *** executeSubtask *)

Definition screenshotStep (text reasoning : string) : BrowserStep :=
  {| text := text; reasoning := reasoning;
     tool := SCREENSHOT; instruction := "" |}.

Definition initialScreenshot : BrowserStep :=
  screenshotStep "Capturing page screenshot"
                 "Need visual context of current state".

Definition loopBreakScreenshot : BrowserStep :=
  screenshotStep "Capturing fresh screenshot"
                 "Need updated visual context to break loop".

Definition updatedScreenshot : BrowserStep :=
  screenshotStep "Capturing updated screenshot"
                 "Need updated visual context after action".

Definition recoveryScreenshot : BrowserStep :=
  screenshotStep "Capturing recovery screenshot"
                 "Need visual context before retry attempt".

Definition urlStep : BrowserStep :=
  {| text := "Getting current URL after navigation";
     reasoning := "Need to update current state";
     tool := EXTRACT;
     instruction := "return document.location.href" |}.

Definition waitStep : BrowserStep :=
  {| text := "Detected repeated action";
     reasoning := "The same action was attempted multiple times without progress";
     tool := WAIT;
     instruction := "Pausing to reassess strategy" |}.

Definition doneStep (reasoning : string) : BrowserStep :=
  {| text := "Marking subtask as complete";
     reasoning := reasoning;
     tool := DONE;
     instruction := "Subtask successfully completed" |}.

Definition failStep (reasoning message : string) : BrowserStep :=
  {| text := "Marking subtask as failed";
     reasoning := reasoning;
     tool := FAIL;
     instruction := message |}.

(** [{ status: "DONE", steps, extraction, retryCount }] *)
Definition doneResult (st : State) : WorkerResult :=
  {| res_status := Status.DONE;
     res_steps := steps st;
     res_extraction := Some (extraction st);
     res_error := None;
     res_retryCount := retryCount st |}.

(** [{ status: "FAILED", steps, error, retryCount }] *)
Definition failedResult (error : string) (st : State) : WorkerResult :=
  {| res_status := Status.FAILED;
     res_steps := steps st;
     res_extraction := None;
     res_error := Some error;
     res_retryCount := retryCount st |}.

Definition maxStepsError : string :=
  "Exceeded maximum number of steps ("
    ++ numToString (Z.of_nat MAX_STEPS) ++ ")".

Definition repeatError (t : Tool) (retries : Z) : string :=
  "Failed due to repeating the same action (" ++ toolName t ++ ") "
    ++ numToString retries ++ " times".

(** [currentScreenshot = await executeStep(shot)], failures ignored. *)
Definition refreshScreenshot (shot : BrowserStep) : M unit :=
  try_catch
    (data <- executeStep shot ;; modify (set_currentScreenshot data))
    (fun _ => ret tt).

(** The update of [currentUrl] after GOTO and NAVBACK. *)
Definition refreshUrl : M unit :=
  try_catch
    (currentUrlResult <- executeStep urlStep ;;
     match currentUrlResult with
     | PString s => modify (set_currentUrl s)
     | PArray (first :: _) => modify (set_currentUrl first)
     | _ => ret tt
     end)
    (fun _ => ret tt).

(** The statements inside the inner [try] of the loop. *)
Definition loopBody (maxRetries : Z) : M Control :=
  st <- get ;;
  if (MAX_STEPS <=? length (steps st))%nat then
    ret (Return (failedResult maxStepsError st))
  else
    nextStep <- getNextStep ;;
    if tool_eqb (tool nextStep) DONE then
      pushStep nextStep ;;
      st <- get ;;
      ret (Return (doneResult st))
    else if tool_eqb (tool nextStep) FAIL then
      pushStep nextStep ;;
      st <- get ;;
      ret (Return (failedResult (instruction nextStep) st))
    else
      repeating <- isRepeatingAction nextStep ;;
      if repeating then
        modify (fun st => set_retryCount (retryCount st + 1)%Z st) ;;
        st <- get ;;
        if (maxRetries <=? retryCount st)%Z then
          ret (Return (failedResult
                         (repeatError (tool nextStep) (retryCount st)) st))
        else
          pushStep waitStep ;;
          refreshScreenshot loopBreakScreenshot ;;
          sleep 1000 ;;
          ret Continue
      else
        pushStep nextStep ;;
        if hasCompletionLanguage nextStep then
          pushStep (doneStep "Based on completion signals in previous step") ;;
          st <- get ;;
          ret (Return (doneResult st))
        else if negb (tool_eqb (tool nextStep) CLOSE) then
          result <- executeStep nextStep ;;
          (if tool_eqb (tool nextStep) EXTRACT && truthy result
           then modify (set_extraction result) ;;
                modify (set_previousExtraction result)
           else ret tt) ;;
          (if tool_eqb (tool nextStep) GOTO
              || tool_eqb (tool nextStep) NAVBACK
           then refreshUrl
           else ret tt) ;;
          (if negb (tool_eqb (tool nextStep) SCREENSHOT)
           then refreshScreenshot updatedScreenshot
           else modify (set_currentScreenshot result)) ;;
          ret Continue
        else
          pushStep (doneStep "Based on CLOSE request from agent") ;;
          st <- get ;;
          ret (Return (doneResult st)).

(** The handler of the inner [try]. *)
Definition loopCatch (maxRetries : Z) (error : Thrown) : M Control :=
  modify (set_lastError (Some (errorMessage error))) ;;
  modify (fun st => set_retryCount (retryCount st + 1)%Z st) ;;
  st <- get ;;
  if (maxRetries <=? retryCount st)%Z then
    pushStep (failStep "Exceeded maximum retry attempts"
                       (errorMessage error)) ;;
    st <- get ;;
    ret (Return (failedResult (errorMessage error) st))
  else
    sleep 1000 ;;
    refreshScreenshot recoveryScreenshot ;;
    ret Continue.

(** One pass through [while (!isSubtaskComplete) { try ... catch ... }]. *)
Definition iteration (maxRetries : Z) : M Control :=
  try_catch (loopBody maxRetries) (loopCatch maxRetries).

Fixpoint whileLoop (fuel : nat) (maxRetries : Z) : M LoopExit :=
  match fuel with
  | O => ret FuelExhausted
  | S fuel' =>
      st <- get ;;
      if isSubtaskComplete st then ret LoopEnded
      else
        control <- iteration maxRetries ;;
        match control with
        | Return result => ret (Returned result)
        | Continue => whileLoop fuel' maxRetries
        end
  end.

(** The statements of the outer [try] that precede the loop. *)
Definition prologue : M unit :=
  try_catch (throw (ThrownError "Not implemented"))
            (fun _ => modify (set_currentUrl "unknown")) ;;
  try_catch
    (data <- executeStep initialScreenshot ;;
     modify (set_currentScreenshot data))
    (fun _ => modify (set_currentScreenshot PNull)) ;;
  modify (set_isSubtaskComplete false).

(** The body of [executeSubtask], from the outer [try] to its handler. *)
Definition executeSubtaskM (fuel : nat) (maxRetries : Z)
  : M (option (Origin * WorkerResult)) :=
  try_catch
    (prologue ;;
     exit <- whileLoop fuel maxRetries ;;
     match exit with
     | Returned result => ret (Some (ReturnInLoop, result))
     | LoopEnded =>
         pushStep (doneStep "Reached the end of execution successfully") ;;
         st <- get ;;
         ret (Some (AfterLoop, doneResult st))
     | FuelExhausted => ret None
     end)
    (fun error =>
       modify (set_lastError (Some (errorMessage error))) ;;
       pushStep (failStep "Fatal error occurred" (errorMessage error)) ;;
       st <- get ;;
       ret (Some (OuterCatch, failedResult (errorMessage error) st))).

(** The locals of [executeSubtask] before its first statement. *)
Definition initialState (previousExtraction : Payload) : State :=
  {| steps := [];
     extraction := PNull;
     retryCount := 0%Z;
     lastError := None;
     currentScreenshot := PNull;
     currentUrl := "";
     previousExtraction := previousExtraction;
     recentActionHistory := [];
     isSubtaskComplete := false;
     oracleCalls := 0;
     stagehandCalls := 0;
     trace := [] |}.

Definition toOutcome (r : Thrown + option (Origin * WorkerResult))
  : Outcome :=
  match r with
  | inl error => Rejects error
  | inr None => Unfinished
  | inr (Some (origin, result)) => Resolves origin result
  end.

(** [executeSubtask] with the loop unrolled [fuel] times, together with
    the final state (its trace lists the calls made). *)
Definition runSubtask (fuel : nat) (previousExtraction : Payload)
           (maxRetries : Z) : Outcome * State :=
  let (r, st) := executeSubtaskM fuel maxRetries
                                 (initialState previousExtraction) in
  (toOutcome r, st).

(** [executeSubtask].  Every pass through the loop that continues pushes
    a step and the loop returns at [MAX_STEPS] steps, so [MAX_STEPS + 1]
    passes are all it can make: with that fuel the loop always returns, and
    more fuel changes nothing ([executeSubtask_total]).  The parameters
    [subtaskId], [sessionId], the goals and [taskPlan] only reach the logs,
    the prompt and the browser session; they are not part of the
    embedding. *)
Definition executeSubtask (previousExtraction : Payload) (maxRetries : Z)
  : Outcome * State :=
  runSubtask (S MAX_STEPS) previousExtraction maxRetries.

(** *** Notions used to state the properties of the loop *)

(** The state in which the [while] loop is entered. *)
Definition loopEntry (previousExtraction : Payload) : State :=
  snd (prologue (initialState previousExtraction)).

(** The states in which the loop condition is evaluated. *)
Inductive Reachable (previousExtraction : Payload) (maxRetries : Z)
  : State -> Prop :=
| Reachable_entry :
    Reachable previousExtraction maxRetries (loopEntry previousExtraction)
| Reachable_pass : forall st st',
    Reachable previousExtraction maxRetries st ->
    isSubtaskComplete st = false ->
    iteration maxRetries st = (inr Continue, st') ->
    Reachable previousExtraction maxRetries st'.

(** The number of times the action of [step] occurs in a history. *)
Definition occurrences (step : BrowserStep)
           (history : list (Tool * string)) : nat :=
  length (filter (sameAction step) history).

(** The history after [isRepeatingAction step]: the action is added
    and, beyond [MAX_HISTORY] entries, the oldest entry is dropped. *)
Definition pushHistory (step : BrowserStep)
           (history : list (Tool * string)) : list (Tool * string) :=
  let extended := (history ++ [(tool step, instruction step)])%list in
  if (MAX_HISTORY <? length extended)%nat then tl extended else extended.

(** The phrases of the completion language. *)
Definition completionPhrases : list string :=
  ["task complete"; "goal achieved"; "subtask complete"].

(** The state after the request that [getNextStep] sends. *)
Definition afterDecide (st : State) : State :=
  set_oracleCalls (S (oracleCalls st))
    (set_trace (trace st ++ [EvDecide (steps st)]) st).

(** The state after [executeStep step] opened a browser session. *)
Definition afterExec (step : BrowserStep) (st : State) : State :=
  set_stagehandCalls (S (stagehandCalls st))
    (set_trace (trace st ++ [EvExec step]) st).

(** The number of pauses in a trace. *)
Definition isSleep (ev : Event) : bool :=
  match ev with EvSleep _ => true | _ => false end.

Definition sleeps (tr : list Event) : nat := length (filter isSleep tr).

(** The tools on which a pass through the loop ends the subtask. *)
Definition terminalTool (t : Tool) : bool :=
  match t with DONE | FAIL | CLOSE => true | _ => false end.

(** *** The cases of one pass through the loop

    [Decided st step]: in state [st], [getNextStep] returns [step]; it
    is the fallback step when the request throws, the converted DONE
    step when the object carries completion language without the DONE
    tool, and the object itself otherwise. *)
Inductive Decided (st : State) : BrowserStep -> Prop :=
| Decided_fallback : forall error,
    generateObject env (oracleCalls st) = OracleThrows error ->
    Decided st fallbackStep
| Decided_converted : forall object,
    generateObject env (oracleCalls st) = OracleObject object ->
    tool object <> DONE -> hasCompletionLanguage object = true ->
    Decided st (convertedDoneStep object)
| Decided_verbatim : forall object,
    generateObject env (oracleCalls st) = OracleObject object ->
    tool object = DONE \/ hasCompletionLanguage object = false ->
    Decided st object.

(** What a pass that requested a decision changed: the steps it
    pushed, the retries it counted, the history it left and the calls
    it made after the request. *)
Definition effect (st st' : State) (newSteps : list BrowserStep)
           (retries : Z) (history : list (Tool * string))
           (events : list Event) : Prop :=
  steps st' = (steps st ++ newSteps)%list /\
  retryCount st' = (retryCount st + retries)%Z /\
  recentActionHistory st' = history /\
  isSubtaskComplete st' = isSubtaskComplete st /\
  oracleCalls st' = S (oracleCalls st) /\
  trace st' = (trace st ++ EvDecide (steps st) :: events)%list.

(** The calls that follow an action that returned: the URL after a
    navigation, a screenshot after anything but a screenshot. *)
Definition followUp (step : BrowserStep) : list Event :=
  ((if tool_eqb (tool step) GOTO || tool_eqb (tool step) NAVBACK
    then [EvExec urlStep] else []) ++
   (if negb (tool_eqb (tool step) SCREENSHOT)
    then [EvExec updatedScreenshot] else []))%list.

(** [Pass maxRetries st control st']: the cases in which a pass that
    starts in [st] ends with [control] in [st'] (proved of [iteration]
    in [iteration_spec]). *)
Inductive Pass (maxRetries : Z) (st : State) : Control -> State -> Prop :=
| Pass_ceiling :
    MAX_STEPS <= length (steps st) ->
    Pass maxRetries st (Return (failedResult maxStepsError st)) st
| Pass_done : forall nextStep st',
    length (steps st) < MAX_STEPS ->
    Decided st nextStep ->
    tool nextStep = DONE ->
    effect st st' [nextStep] 0 (recentActionHistory st) [] ->
    extraction st' = extraction st ->
    Pass maxRetries st (Return (doneResult st')) st'
| Pass_fail : forall nextStep st',
    length (steps st) < MAX_STEPS ->
    Decided st nextStep ->
    tool nextStep = FAIL ->
    effect st st' [nextStep] 0 (recentActionHistory st) [] ->
    Pass maxRetries st
         (Return (failedResult (instruction nextStep) st')) st'
| Pass_repeat_failed : forall nextStep st',
    length (steps st) < MAX_STEPS ->
    Decided st nextStep ->
    tool nextStep <> DONE -> tool nextStep <> FAIL ->
    MAX_DUPLICATES <= occurrences nextStep (recentActionHistory st) ->
    (maxRetries <= retryCount st + 1)%Z ->
    effect st st' [] 1 (pushHistory nextStep (recentActionHistory st)) [] ->
    Pass maxRetries st
         (Return (failedResult
                    (repeatError (tool nextStep) (retryCount st + 1)) st'))
         st'
| Pass_repeat_pause : forall nextStep st',
    length (steps st) < MAX_STEPS ->
    Decided st nextStep ->
    tool nextStep <> DONE -> tool nextStep <> FAIL ->
    MAX_DUPLICATES <= occurrences nextStep (recentActionHistory st) ->
    (retryCount st + 1 < maxRetries)%Z ->
    effect st st' [waitStep] 1
           (pushHistory nextStep (recentActionHistory st))
           [EvExec loopBreakScreenshot; EvSleep 1000] ->
    Pass maxRetries st Continue st'
| Pass_close : forall nextStep st',
    length (steps st) < MAX_STEPS ->
    Decided st nextStep ->
    tool nextStep = CLOSE ->
    occurrences nextStep (recentActionHistory st) < MAX_DUPLICATES ->
    effect st st'
           [nextStep; doneStep "Based on CLOSE request from agent"] 0
           (pushHistory nextStep (recentActionHistory st)) [] ->
    extraction st' = extraction st ->
    Pass maxRetries st (Return (doneResult st')) st'
| Pass_executed : forall nextStep st' value,
    length (steps st) < MAX_STEPS ->
    Decided st nextStep ->
    terminalTool (tool nextStep) = false ->
    occurrences nextStep (recentActionHistory st) < MAX_DUPLICATES ->
    stagehand env (stagehandCalls st) (tool nextStep) (instruction nextStep)
    = ActReturns value ->
    effect st st' [nextStep] 0
           (pushHistory nextStep (recentActionHistory st))
           (EvExec nextStep :: followUp nextStep) ->
    Pass maxRetries st Continue st'
| Pass_fault_failed : forall nextStep st' error,
    length (steps st) < MAX_STEPS ->
    Decided st nextStep ->
    terminalTool (tool nextStep) = false ->
    occurrences nextStep (recentActionHistory st) < MAX_DUPLICATES ->
    stagehand env (stagehandCalls st) (tool nextStep) (instruction nextStep)
    = ActThrows error ->
    (maxRetries <= retryCount st + 1)%Z ->
    effect st st'
           [nextStep;
            failStep "Exceeded maximum retry attempts" (errorMessage error)]
           1 (pushHistory nextStep (recentActionHistory st))
           [EvExec nextStep] ->
    Pass maxRetries st
         (Return (failedResult (errorMessage error) st')) st'
| Pass_fault_retry : forall nextStep st' error,
    length (steps st) < MAX_STEPS ->
    Decided st nextStep ->
    terminalTool (tool nextStep) = false ->
    occurrences nextStep (recentActionHistory st) < MAX_DUPLICATES ->
    stagehand env (stagehandCalls st) (tool nextStep) (instruction nextStep)
    = ActThrows error ->
    (retryCount st + 1 < maxRetries)%Z ->
    effect st st' [nextStep] 1
           (pushHistory nextStep (recentActionHistory st))
           [EvExec nextStep; EvSleep 1000; EvExec recoveryScreenshot] ->
    Pass maxRetries st Continue st'.

(** What holds whenever the loop condition is evaluated: the flag of the
loop is down, the steps and the history are within their bounds, no
terminal tool is in the history or was given to [executeStep], and every
retry counted so far was followed by one pause and left the counter
below [maxRetries]. *)
Definition LoopInvariant (maxRetries : Z) (st : State) : Prop :=
  isSubtaskComplete st = false /\
  (length (steps st) <= MAX_STEPS)%nat /\
  (length (recentActionHistory st) <= MAX_HISTORY)%nat /\
  Forall (fun action => terminalTool (fst action) = false)
         (recentActionHistory st) /\
  (forall step, In (EvExec step) (trace st) ->
                terminalTool (tool step) = false) /\
  Z.of_nat (sleeps (trace st)) = retryCount st /\
  (retryCount st = 0 \/ retryCount st < maxRetries)%Z.

(** *** Notions used to state the budget of a subtask *)

(** The [previousSteps] of the requests of a trace, in order. *)
Definition decisions (tr : list Event) : list (list BrowserStep) :=
  flat_map (fun ev => match ev with
                      | EvDecide previousSteps => [previousSteps]
                      | _ => []
                      end) tr.

(** The number of [executeStep] calls in a trace. *)
Definition isExec (ev : Event) : bool :=
  match ev with EvExec _ => true | _ => false end.

Definition execs (tr : list Event) : nat := length (filter isExec tr).

(** The tools that end a list of steps. *)
Definition closingTool (t : Tool) : bool :=
  match t with DONE | FAIL => true | _ => false end.

(** What the counters are whenever the loop condition is evaluated: one
    request and one history entry per step, the n-th request made with the
    first n steps, at most three [executeStep] calls per step after the
    first screenshot, and no terminal tool among the steps. *)
Definition Ledger (st : State) : Prop :=
  oracleCalls st = length (steps st) /\
  length (recentActionHistory st) = Nat.min (length (steps st)) MAX_HISTORY /\
  Forall (fun step => terminalTool (tool step) = false) (steps st) /\
  execs (trace st) <= 1 + 3 * length (steps st) /\
  decisions (trace st)
  = map (fun n => firstn n (steps st)) (seq 0 (length (steps st))).

End WithEnv.

End Worker.

Import Worker.

(* ================================================================= *)
(** ** planner.ts *)

Module Planner.

(** An element of [planResult.object.subtasks], as the schema of
    [createTaskPlan] declares it; a dependency is a 0-based index. *)
Record PlannedSubtask : Type := mkPlanned {
  p_description : string;
  p_goal : string;
  p_dependencies : option (list Z)
}.

Record PlanObject : Type := mkPlanObject {
  o_summary : string;
  o_subtasks : list PlannedSubtask
}.

(** [interface Subtask] *)
Record Subtask : Type := mkSubtask {
  id : string;
  description : string;
  goal : string;
  dependencies : option (list string);
  status : Status.t
}.

(** [interface TaskPlan] *)
Record TaskPlan : Type := mkTaskPlan {
  summary : string;
  subtasks : list Subtask
}.

(** [`subtask-${index + 1}`] *)
Definition subtaskId (index : Z) : string :=
  "subtask-" ++ numToString (index + 1).

(** The callback of [planResult.object.subtasks.map]. *)
Definition toSubtask (subtask : PlannedSubtask) (index : nat) : Subtask :=
  {| id := subtaskId (Z.of_nat index);
     description := p_description subtask;
     goal := p_goal subtask;
     dependencies := option_map (map subtaskId) (p_dependencies subtask);
     status := Status.PENDING |}.

(** [array.map((element, index) => f(element, index))], from [index]. *)
Fixpoint mapFrom {A B} (f : A -> nat -> B) (index : nat) (l : list A)
  : list B :=
  match l with
  | [] => []
  | x :: l' => f x index :: mapFrom f (S index) l'
  end.

(** [createTaskPlan], given what [generateObject] yields. *)
Definition createTaskPlan (planResult : Thrown + PlanObject)
  : Thrown + TaskPlan :=
  match planResult with
  | inr object =>
      inr {| summary := o_summary object;
             subtasks := mapFrom toSubtask 0 (o_subtasks object) |}
  | inl error =>
      inl (ThrownError ("Planning agent failed: " ++ errorMessage error))
  end.

End Planner.

(* ================================================================= *)
(** ** The task store *)

Module TaskManager.
Import Planner.

Inductive TaskError : Type := InvalidPlan | NotFound.

Record Task : Type := mkTask {
  task_id : string;
  task_goal : string;
  task_summary : string;
  task_subtasks : list Subtask;
  task_status : Status.t;
  task_sessionId : string
}.

(** The dependency indices a planned subtask declares. *)
Definition declared (subtask : PlannedSubtask) : list Z :=
  match p_dependencies subtask with
  | Some indices => indices
  | None => []
  end.

Definition inRange (n : nat) (index : Z) : bool :=
  (0 <=? index)%Z && (index <? Z.of_nat n)%Z.

Definition allInRange (plan : list PlannedSubtask) : bool :=
  forallb (fun subtask => forallb (inRange (length plan)) (declared subtask))
          plan.

(** The subtasks that subtask [i] waits for. *)
Definition depsOf (plan : list PlannedSubtask) (i : nat) : list nat :=
  match nth_error plan i with
  | Some subtask => map Z.to_nat (declared subtask)
  | None => []
  end.

Definition member (i : nat) (l : list nat) : bool := existsb (Nat.eqb i) l.

(** Subtask [i] can be placed next: it is not placed yet and everything
    it waits for is. *)
Definition ready (plan : list PlannedSubtask) (placed : list nat) (i : nat)
  : bool :=
  negb (member i placed)
  && forallb (fun d => member d placed) (depsOf plan i).

Fixpoint place (plan : list PlannedSubtask) (rounds : nat)
         (placed : list nat) : option (list nat) :=
  match rounds with
  | O => Some placed
  | S rounds' =>
      match find (ready plan placed) (seq 0 (length plan)) with
      | Some i => place plan rounds' (placed ++ [i])
      | None => None
      end
  end.

(** Modelled from the spec: the topological sort over the declared
    dependency edges that [createTask] of task-manager.ts performs; it
    places one subtask per round, the first in plan order whose
    dependencies are all placed, and fails when none is left to place. *)
Definition topologicalSort (plan : list PlannedSubtask)
  : option (list nat) :=
  place plan (length plan) [].

(** Modelled from the spec: [createTask] of task-manager.ts, which is not
    among the sources.  It checks that the plan has a subtask, that every
    declared dependency index is in range and that the topological sort
    succeeds, and builds the subtasks with the ids and the resolved
    dependencies of [Planner.toSubtask], all PENDING.  The task id comes
    from the store. *)
Definition createTask (taskId goal : string) (plan : PlanObject)
           (sessionId : string) : TaskError + Task :=
  match o_subtasks plan with
  | [] => inl InvalidPlan
  | _ =>
      if negb (allInRange (o_subtasks plan)) then inl InvalidPlan
      else
        match topologicalSort (o_subtasks plan) with
        | None => inl InvalidPlan
        | Some _ =>
            inr {| task_id := taskId;
                   task_goal := goal;
                   task_summary := o_summary plan;
                   task_subtasks := mapFrom toSubtask 0 (o_subtasks plan);
                   task_status := Status.PENDING;
                   task_sessionId := sessionId |}
        end
  end.

(** *** Notions used to state the properties of [createTask] *)

(** Subtask [i] declares subtask [d] as a dependency. *)
Definition dependsOn (plan : list PlannedSubtask) (i d : nat) : Prop :=
  exists subtask,
    nth_error plan i = Some subtask /\ In (Z.of_nat d) (declared subtask).

(** A chain of one or more dependencies from [i] to [j]. *)
Inductive chain (plan : list PlannedSubtask) : nat -> nat -> Prop :=
| chain_one : forall i d, dependsOn plan i d -> chain plan i d
| chain_more : forall i d j,
    dependsOn plan i d -> chain plan d j -> chain plan i j.

Definition hasCycle (plan : list PlannedSubtask) : Prop :=
  exists i, chain plan i i.

(** Some subtask declares an index that is no position of the plan. *)
Definition hasOutOfRange (plan : list PlannedSubtask) : Prop :=
  exists subtask index,
    In subtask plan /\ In index (declared subtask) /\
    ((index < 0)%Z \/ (Z.of_nat (length plan) <= index)%Z).

(** *** What the sort has placed *)

(** The placed subtasks are positions of the plan, each once; what a
    placed subtask waits for is placed; no placed subtask is on a cycle. *)
Definition Placed (plan : list PlannedSubtask) (placed : list nat) : Prop :=
  NoDup placed /\
  (forall i, In i placed -> i < length plan) /\
  (forall i d, In i placed -> In d (depsOf plan i) -> In d placed) /\
  (forall i, In i placed -> ~ chain plan i i).

End TaskManager.

(* ================================================================= *)
(** ** route.ts: the EXECUTE_WORKER_TASK handler *)

Module Route.

(** What the handler answers. *)
Inductive Response : Type :=
| Json200 (result : WorkerResult)        (* { success: true, result } *)
| Json500 (error : string).              (* { error, success: false } *)

(** What the handler does to the task store and the console. *)
Inductive Call : Type :=
| UpdateSubtaskStatus (taskId subtaskId : string) (status : Status.t)
                      (result : WorkerResult)
| ConsoleError (label : string) (error : Thrown).

Section Handler.

(** [TaskManager.updateSubtaskStatus] belongs to task-manager.ts, which
    is not among the sources: the handler is embedded over any store
    and any update, which returns or throws. *)
Variable Store : Type.
Variable updateSubtaskStatus :
  string -> string -> Status.t -> WorkerResult -> Store ->
  (Thrown + unit) * Store.

(** [{ status: 'FAILED', steps: [], error: ..., retryCount: 0 }] *)
Definition forcedFailure (error : Thrown) : WorkerResult :=
  {| res_status := Status.FAILED;
     res_steps := [];
     res_extraction := None;
     res_error := Some (messageOrUnknown error);
     res_retryCount := 0%Z |}.

(** The [catch] block of the case. *)
Definition executeWorkerTaskCatch (taskId subtaskId : string)
           (error : Thrown) (store : Store) (calls : list Call)
  : Response * Store * list Call :=
  let calls :=
    (calls ++ [ConsoleError "[ERROR] Execute worker task failed:" error;
               UpdateSubtaskStatus taskId subtaskId Status.FAILED
                                   (forcedFailure error)])%list in
  let answer :=
    Json500 ("Execute worker task failed: " ++ messageOrUnknown error) in
  match updateSubtaskStatus taskId subtaskId Status.FAILED
                            (forcedFailure error) store with
  | (inr _, store') => (answer, store', calls)
  | (inl updateError, store') =>
      (answer, store',
       (calls ++ [ConsoleError "[ERROR] Failed to update subtask status:"
                               updateError])%list)
  end.

(** [case 'EXECUTE_WORKER_TASK'], given what awaiting [executeSubtask]
    gives: a result, or a thrown value. *)
Definition executeWorkerTask (taskId subtaskId : string)
           (execution : Thrown + WorkerResult) (store : Store)
  : Response * Store * list Call :=
  match execution with
  | inl error => executeWorkerTaskCatch taskId subtaskId error store []
  | inr result =>
      let calls := [UpdateSubtaskStatus taskId subtaskId
                      (res_status result) result] in
      match updateSubtaskStatus taskId subtaskId (res_status result)
                                result store with
      | (inr _, store') => (Json200 result, store', calls)
      | (inl error, store') =>
          executeWorkerTaskCatch taskId subtaskId error store' calls
      end
  end.

End Handler.

(** What awaiting [executeSubtask] gives to the handler. *)
Definition awaited (outcome : Outcome) : option (Thrown + WorkerResult) :=
  match outcome with
  | Resolves _ result => Some (inr result)
  | Rejects error => Some (inl error)
  | Unfinished => None
  end.

(** [case 'EXECUTE_WORKER_TASK'] around [executeSubtask], which the handler
calls without [previousExtraction] and with the default [maxRetries];
[None] when the embedding of the loop ran out of fuel. *)
Definition postExecuteWorkerTask (Store : Type)
           (updateSubtaskStatus :
              string -> string -> Status.t -> WorkerResult -> Store ->
              (Thrown + unit) * Store)
           (env : Env) (taskId subtaskId : string) (store : Store)
  : option (Response * Store * list Call) :=
  match awaited (fst (executeSubtask env PUndefined defaultMaxRetries)) with
  | Some execution =>
      Some (executeWorkerTask Store updateSubtaskStatus taskId subtaskId
                              execution store)
  | None => None
  end.

(** A store in which the subtask is unknown: every update throws. *)
Definition unknownSubtask :
  string -> string -> Status.t -> WorkerResult -> unit ->
  (Thrown + unit) * unit :=
  fun _ subtaskId _ _ store =>
    (inl (ThrownError ("Subtask not found: " ++ subtaskId)), store).

(** The oracle that reports success at once. *)
Definition finished : Env :=
  {| generateObject :=
       fun _ => OracleObject {| text := "Report the price";
                                reasoning := "The price is on the page";
                                tool := DONE;
                                instruction := "Found price: $131.00" |};
     stagehand := fun _ _ _ => ActReturns PUndefined |}.

(** A store that records every update. *)
Definition recording :
  string -> string -> Status.t -> WorkerResult ->
  list (string * Status.t) -> (Thrown + unit) * list (string * Status.t) :=
  fun _ subtaskId status _ store => (inr tt, (subtaskId, status) :: store).

(** The result of the oracle that reports success at once. *)
Definition priceFound : WorkerResult :=
  {| res_status := Status.DONE;
     res_steps := [ {| text := "Report the price";
                       reasoning := "The price is on the page";
                       tool := DONE;
                       instruction := "Found price: $131.00" |} ];
     res_extraction := Some PNull;
     res_error := None;
     res_retryCount := 0%Z |}.

End Route.

(* ================================================================= *)
(** ** The calls that leave the process *)

(** Every call to the browser session, to a language model or to the task
    store is written to a log, and what the call returns or throws may
    depend on everything that was called before it. *)
Module Outside.
Import Planner.

Inductive Op : Type :=
(* Stagehand *)
| Init                            (* stagehand.init() *)
| Url                             (* stagehand.page.url() *)
| Goto (url : string)             (* page.goto(url, ...) *)
| ActOn (action : string)         (* page.act(...) *)
| ExtractFrom (instr : string)    (* page.extract(instr), its extraction *)
| ObservePage (instr : string)    (* page.observe({ instruction, ... }) *)
| Close                           (* stagehand.close() *)
| NewCDPSession                   (* page.context().newCDPSession(page) *)
| CaptureScreenshot               (* cdpSession.send(...), its data *)
| Timer (ms : string)             (* setTimeout(resolve, Number(ms)) *)
| GoBack                          (* page.goBack() *)
(* language models *)
| SelectStartingUrl (goal : string)
| Decide (goal currentUrl : string) (previousSteps : list BrowserStep)
         (screenshot previousExtraction : option Payload)
| SearchFor (task : string)
| PlanFor (task searchContext : string)
(* task-manager.ts *)
| CreateTask (goal : string) (plan : TaskPlan) (sessionId : option string)
| GetNextAvailableSubtask (taskId : string)
| GetTask (taskId : string)
| GetTaskProgressById (taskId : string)
| UpdateSubtaskStatus (taskId subtaskId : string) (status : Status.t)
                      (result : WorkerResult)
(* worker.ts *)
| ExecuteSubtask (subtaskId sessionId overallGoal subtaskGoal
                  subtaskDescription : string).

(** What the calls yield, given the log up to and including the call. *)
Record World : Type := mkWorld {
  page : list Op -> Thrown + Payload;
  address : list Op -> Thrown + string;
  chosenUrl : list Op -> Thrown + string * string;   (* url, reasoning *)
  decided : list Op -> Thrown + BrowserStep;
  searched : list Op -> Thrown + string;             (* result.text *)
  planned : list Op -> Thrown + PlanObject;
  created : list Op -> Thrown + TaskManager.Task;
  nextSubtask : list Op -> Thrown + option Subtask;
  foundTask : list Op -> Thrown + option TaskManager.Task;
  progressOf : list Op -> Thrown + Payload;
  updated : list Op -> Thrown + unit;
  executed : list Op -> Thrown + WorkerResult
}.

(** Code that calls out: it extends the log and returns or throws. *)
Definition Run (A : Type) : Type := list Op -> (Thrown + A) * list Op.

Definition pure {A} (a : A) : Run A := fun log => (inr a, log).

Definition raise {A} (error : Thrown) : Run A := fun log => (inl error, log).

Definition andThen {A B} (m : Run A) (k : A -> Run B) : Run B :=
  fun log =>
    match m log with
    | (inl error, log') => (inl error, log')
    | (inr a, log') => k a log'
    end.

(** [try { body } catch (error) { handler error }] *)
Definition tryCatch {A} (body : Run A) (handler : Thrown -> Run A) : Run A :=
  fun log =>
    match body log with
    | (inl error, log') => handler error log'
    | (inr a, log') => (inr a, log')
    end.

(** [try { body } finally { cleanup }]: the cleanup runs however the body
    ends, also after a [return]; when the cleanup throws, its error
    replaces what the body returned or threw. *)
Definition tryFinally {A} (body : Run A) (cleanup : Run unit) : Run A :=
  fun log =>
    match body log with
    | (outcome, log') =>
        match cleanup log' with
        | (inl error, log'') => (inl error, log'')
        | (inr _, log'') => (outcome, log'')
        end
    end.

(** An awaited call. *)
Definition ask {A} (oracle : list Op -> Thrown + A) (op : Op) : Run A :=
  fun log => (oracle (log ++ [op])%list, (log ++ [op])%list).

(** A timer: it is started and never throws. *)
Definition tell (op : Op) : Run unit :=
  fun log => (inr tt, (log ++ [op])%list).

Declare Scope run_scope.
Delimit Scope run_scope with run.
Notation "x <- m ;; k" := (andThen m (fun x => k))
  (at level 61, m at next level, right associativity) : run_scope.
Notation "m ;; k" := (andThen m (fun _ => k))
  (at level 61, right associativity) : run_scope.

End Outside.

(* ================================================================= *)
(** ** worker.ts: the browser session of runStagehand *)

Module Session.
Import Outside.
Local Open Scope run_scope.

(** [method !== "EXTRACT" && method !== "OBSERVE" && method !== "SCREENSHOT"] *)
Definition closesSession (method : Tool) : bool :=
  negb (tool_eqb method EXTRACT) && negb (tool_eqb method OBSERVE)
  && negb (tool_eqb method SCREENSHOT).

(** [runStagehand], call by call.  DONE and FAIL are answered before a
    session is opened.  The [default] case of the [switch] is the one of
    DONE and FAIL, which never reach it: the function is called with the
    tool of a [BrowserStep] only.  The session id and the subtask id only
    reach the session and the console. *)
Definition runStagehand (w : World) (method : Tool) (instruction : string)
  : Run Payload :=
  match method with
  | DONE => pure (PObject [("status", "DONE"); ("message", instruction)])
  | FAIL => pure (PObject [("status", "FAILED"); ("message", instruction)])
  | _ =>
      tryFinally
        (tryCatch
           (ask (page w) Init ;;
            match method with
            | GOTO => ask (page w) (Goto instruction) ;; pure PUndefined
            | ACT => ask (page w) (ActOn instruction) ;; pure PUndefined
            | EXTRACT => ask (page w) (ExtractFrom instruction)
            | OBSERVE => ask (page w) (ObservePage instruction)
            | CLOSE => ask (page w) Close ;; pure PUndefined
            | SCREENSHOT =>
                ask (page w) NewCDPSession ;; ask (page w) CaptureScreenshot
            | WAIT => tell (Timer instruction) ;; pure PUndefined
            | NAVBACK => ask (page w) GoBack ;; pure PUndefined
            | DONE | FAIL =>
                raise (ThrownError ("Unknown method: " ++ toolName method))
            end)
           (fun error => raise error))
        (if closesSession method
         then ask (page w) Close ;; pure tt
         else pure tt)
  end.

(** The number of [stagehand.close()] calls in a log. *)
Definition isClose (op : Op) : bool :=
  match op with Close => true | _ => false end.

Definition closes (log : list Op) : nat := length (filter isClose log).

(** The calls to the page of an open session. *)
Definition isPageCall (op : Op) : bool :=
  match op with
  | Goto _ | ActOn _ | ExtractFrom _ | ObservePage _ | NewCDPSession
  | CaptureScreenshot | Timer _ | GoBack | Url => true
  | _ => false
  end.

End Session.

(* ================================================================= *)
(** ** search.ts *)

Module Search.
Import Outside.

(** [searchForTaskContext]: the text of the search model, or an [Error]
    that wraps what the request threw. *)
Definition searchForTaskContext (w : World) (task : string) : Run string :=
  tryCatch
    (ask (searched w) (SearchFor task))
    (fun error =>
       raise (ThrownError ("Search agent failed: " ++ errorMessage error))).

End Search.

(* ================================================================= *)
(** ** route.ts: the endpoint *)

Module Endpoint.
Import Outside Planner.
Local Open Scope run_scope.

(** The legacy [runStagehand] of route.ts: the session is initialised
    outside the [try], a method that is no case of the [switch] does
    nothing, and the session is closed only when a call of the [switch]
    throws. *)
Definition runStagehand (w : World) (method : Tool) (instruction : string)
  : Run Payload :=
  ask (page w) Init ;;
  tryCatch
    match method with
    | GOTO => ask (page w) (Goto instruction) ;; pure PUndefined
    | ACT => ask (page w) (ActOn instruction) ;; pure PUndefined
    | EXTRACT => ask (page w) (ExtractFrom instruction)
    | OBSERVE => ask (page w) (ObservePage instruction)
    | CLOSE => ask (page w) Close ;; pure PUndefined
    | SCREENSHOT =>
        ask (page w) NewCDPSession ;; ask (page w) CaptureScreenshot
    | WAIT => tell (Timer instruction) ;; pure PUndefined
    | NAVBACK => ask (page w) GoBack ;; pure PUndefined
    | DONE | FAIL => pure PUndefined
    end
    (fun error => ask (page w) Close ;; raise error).

(** [previousSteps.length > 0 && previousSteps.some(step => step.tool === "GOTO")] *)
Definition hasNavigated (previousSteps : list BrowserStep) : bool :=
  (0 <? length previousSteps)%nat
  && existsb (fun step => tool_eqb (tool step) GOTO) previousSteps.

(** [sendPrompt]: it reads the URL of the page (failures ignored), takes
    a screenshot when a previous step navigated, and asks the language
    model for the next step. *)
Definition sendPrompt (w : World) (goal : string)
           (previousSteps : list BrowserStep)
           (previousExtraction : option Payload) : Run BrowserStep :=
  currentUrl <-
    tryCatch
      (ask (page w) Init ;;
       url <- ask (address w) Url ;;
       (* [currentUrl] is assigned before the session is closed *)
       tryCatch (ask (page w) Close ;; pure url) (fun _ => pure url))
      (fun _ => pure "") ;;
  screenshot <-
    (if hasNavigated previousSteps
     then image <- runStagehand w SCREENSHOT "" ;; pure (Some image)
     else pure None) ;;
  ask (decided w)
      (Decide goal currentUrl previousSteps screenshot
              (match previousExtraction with
               | Some value => if truthy value then Some value else None
               | None => None
               end)).

(** The body of a request, with the fields that [POST] reads.  A field
    that is present has the type that the functions it is passed to
    declare; [None] is a field that is missing. *)
Record Request : Type := mkRequest {
  action : option string;
  goal : option string;
  sessionId : option string;
  step : option BrowserStep;
  previousSteps : option (list BrowserStep);
  previousExtraction : option Payload;
  taskId : option string;
  workerId : option string;
  subtaskId : option string;
  overallGoal : option string;
  subtaskGoal : option string;
  subtaskDescription : option string
}.

(** Truthiness of a field that holds a string. *)
Definition given (field : option string) : bool :=
  match field with
  | Some s => negb (String.eqb s "")
  | None => false
  end.

(** [!!params[param]] *)
Definition has (params : Request) (param : string) : bool :=
  if String.eqb param "action" then given (action params)
  else if String.eqb param "goal" then given (goal params)
  else if String.eqb param "sessionId" then given (sessionId params)
  else if String.eqb param "step" then
    match step params with Some _ => true | None => false end
  else if String.eqb param "previousSteps" then
    match previousSteps params with Some _ => true | None => false end
  else if String.eqb param "previousExtraction" then
    match previousExtraction params with
    | Some value => truthy value
    | None => false
    end
  else if String.eqb param "taskId" then given (taskId params)
  else if String.eqb param "workerId" then given (workerId params)
  else if String.eqb param "subtaskId" then given (subtaskId params)
  else if String.eqb param "overallGoal" then given (overallGoal params)
  else if String.eqb param "subtaskGoal" then given (subtaskGoal params)
  else if String.eqb param "subtaskDescription" then
    given (subtaskDescription params)
  else false.

Definition requiredParams : list (string * list string) :=
  [ ("START", ["goal"; "sessionId"]);
    ("GET_NEXT_STEP", ["goal"; "sessionId"]);
    ("EXECUTE_STEP", ["sessionId"; "step"]);
    ("PLAN_TASK", ["goal"]);
    ("GET_WORKER_TASK", ["taskId"; "workerId"]);
    ("EXECUTE_WORKER_TASK",
     ["taskId"; "workerId"; "subtaskId"; "sessionId"; "overallGoal";
      "subtaskGoal"; "subtaskDescription"]);
    ("GET_TASK_STATUS", ["taskId"]) ].

(** The properties that the object literal [requiredParams] inherits from
    [Object.prototype]: functions, and the prototype itself. *)
Definition inheritedKeys : list string :=
  [ "constructor"; "__defineGetter__"; "__defineSetter__"; "hasOwnProperty";
    "__lookupGetter__"; "__lookupSetter__"; "isPrototypeOf";
    "propertyIsEnumerable"; "toString"; "valueOf"; "__proto__";
    "toLocaleString" ].

Fixpoint ownProperty (key : string) (table : list (string * list string))
  : option (list string) :=
  match table with
  | [] => None
  | (name, value) :: table' =>
      if String.eqb key name then Some value else ownProperty key table'
  end.

(** What [validateRequestParams] returns. *)
Inductive Validation : Type :=
| Valid                       (* { valid: true } *)
| Invalid (error : string).   (* { valid: false, error } *)

(** [validateRequestParams].  For an action that names an inherited
    property, [requiredParams[action]] is truthy and has no [filter]: the
    call throws a TypeError, whose message depends on the engine. *)
Definition validateRequestParams (action : string) (params : Request)
  : Thrown + Validation :=
  let check required :=
    let missingParams := filter (fun param => negb (has params param))
                                required in
    if (0 <? length missingParams)%nat
    then Invalid ("Missing required parameters: "
                    ++ String.concat ", " missingParams)
    else Valid in
  match ownProperty action requiredParams with
  | Some required => inr (check required)
  | None =>
      if existsb (String.eqb action) inheritedKeys
      then inl (ThrownError
                  "(requiredParams[action] || []).filter is not a function")
      else inr (check [])
  end.

(** The JSON of a response. *)
Inductive Body : Type :=
| Failure (error : string)               (* { error, success: false } *)
| NextStep (result : BrowserStep) (done : bool)
                                         (* { success: true, result, done } *)
| Executed (result : Payload) (done : bool)
| Planned (taskId : string) (plan : TaskPlan)
| NoTask                                 (* { success: true, hasTask: false } *)
| WorkerTask (subtaskId overallGoal subtaskGoal subtaskDescription : string)
| WorkerDone (result : WorkerResult)     (* { success: true, result } *)
| TaskStatus (status : Status.t) (progress : Payload).

Record Response : Type := mkResponse {
  status : nat;
  body : Body
}.

(** The [success] field of a response. *)
Definition success (response : Response) : bool :=
  match body response with
  | Failure _ => false
  | _ => true
  end.

(** [NextResponse.json(body)] and [NextResponse.json(body, { status })]. *)
Definition ok (body : Body) : Response := {| status := 200; body := body |}.

Definition failed (status : nat) (error : string) : Response :=
  {| status := status; body := Failure error |}.

(** A field as it is passed on or printed in a template literal: the
    required fields are present when the [switch] is reached, and a
    missing field prints as [undefined]. *)
Definition shown (field : option string) : string :=
  match field with
  | Some s => s
  | None => "undefined"
  end.

(** [TaskManager.updateSubtaskStatus], as a call that is logged. *)
Definition updateSubtaskStatus (w : World) (taskId subtaskId : string)
           (status : Status.t) (result : WorkerResult) (log : list Op)
  : (Thrown + unit) * list Op :=
  ask (updated w) (UpdateSubtaskStatus taskId subtaskId status result) log.

(** The answer of the EXECUTE_WORKER_TASK handler as a response. *)
Definition answered (answer : Route.Response) : Response :=
  match answer with
  | Route.Json200 result => ok (WorkerDone result)
  | Route.Json500 error => failed 500 error
  end.

(** The [switch] of [POST], reached with an action and valid parameters. *)
Definition handle (w : World) (action : string) (request : Request)
  : Run Response :=
  if String.eqb action "START" then
    choice <- ask (chosenUrl w) (SelectStartingUrl (shown (goal request))) ;;
    let (url, reasoning) := choice : string * string in
    runStagehand w GOTO url ;;
    pure (ok (NextStep {| text := "Navigating to " ++ url;
                          reasoning := reasoning;
                          tool := GOTO;
                          instruction := url |} false))
  else if String.eqb action "GET_NEXT_STEP" then
    tryCatch
      (result <- sendPrompt w (shown (goal request))
                            (match previousSteps request with
                             | Some steps => steps
                             | None => []
                             end)
                            (previousExtraction request) ;;
       pure (ok (NextStep result (tool_eqb (tool result) CLOSE))))
      (fun error =>
         pure (failed 500 ("Get next step failed: "
                             ++ messageOrUnknown error)))
  else if String.eqb action "EXECUTE_STEP" then
    tryCatch
      match step request with
      | Some step =>
          result <- runStagehand w (tool step) (instruction step) ;;
          pure (ok (Executed result (tool_eqb (tool step) CLOSE)))
      | None =>
          raise (ThrownError "Cannot read properties of undefined")
      end
      (fun error =>
         pure (failed 500 ("Execute step failed: "
                             ++ messageOrUnknown error)))
  else if String.eqb action "PLAN_TASK" then
    tryCatch
      (searchContext <-
         Search.searchForTaskContext w (shown (goal request)) ;;
       planResult <-
         tryCatch
           (object <- ask (planned w)
                          (PlanFor (shown (goal request)) searchContext) ;;
            pure (inr object))
           (fun error => pure (inl error)) ;;
       match createTaskPlan planResult with
       | inl error => raise error
       | inr plan =>
           task <- ask (created w)
                       (CreateTask (shown (goal request)) plan
                                   (sessionId request)) ;;
           pure (ok (Planned (TaskManager.task_id task) plan))
       end)
      (fun error =>
         pure (failed 500 ("Planning failed: " ++ messageOrUnknown error)))
  else if String.eqb action "GET_WORKER_TASK" then
    tryCatch
      (subtask <- ask (nextSubtask w)
                      (GetNextAvailableSubtask (shown (taskId request))) ;;
       match subtask with
       | None => pure (ok NoTask)
       | Some subtask =>
           task <- ask (foundTask w) (GetTask (shown (taskId request))) ;;
           match task with
           | None =>
               pure (failed 404 ("Task not found: "
                                   ++ shown (taskId request)))
           | Some task =>
               pure (ok (WorkerTask (id subtask) (TaskManager.task_goal task)
                                    (Planner.goal subtask)
                                    (description subtask)))
           end
       end)
      (fun error =>
         pure (failed 500 ("Get worker task failed: "
                             ++ messageOrUnknown error)))
  else if String.eqb action "EXECUTE_WORKER_TASK" then
    fun log =>
      let op := ExecuteSubtask (shown (subtaskId request))
                               (shown (sessionId request))
                               (shown (overallGoal request))
                               (shown (subtaskGoal request))
                               (shown (subtaskDescription request)) in
      let '(answer, log', _) :=
        Route.executeWorkerTask (list Op) (updateSubtaskStatus w)
                                (shown (taskId request))
                                (shown (subtaskId request))
                                (executed w (log ++ [op])%list)
                                (log ++ [op])%list in
      (inr (answered answer), log')
  else if String.eqb action "GET_TASK_STATUS" then
    tryCatch
      (task <- ask (foundTask w) (GetTask (shown (taskId request))) ;;
       match task with
       | None =>
           pure (failed 404 ("Task not found: " ++ shown (taskId request)))
       | Some task =>
           progress <- ask (progressOf w)
                           (GetTaskProgressById (shown (taskId request))) ;;
           if truthy progress
           then pure (ok (TaskStatus (TaskManager.task_status task) progress))
           else pure (failed 500 ("Could not get progress for task: "
                                    ++ shown (taskId request)))
       end)
      (fun error =>
         pure (failed 500 ("Get task status failed: "
                             ++ messageOrUnknown error)))
  else
    pure (failed 400 ("Unknown action: " ++ action)).

(** [POST], given what [request.json()] yields. *)
Definition POST (w : World) (parsed : Thrown + Request) : Run Response :=
  tryCatch
    match parsed with
    | inl error => raise error
    | inr request =>
        match action request with
        | None => pure (failed 400 "Missing action in request body")
        | Some name =>
            if String.eqb name "" then
              pure (failed 400 "Missing action in request body")
            else
              match validateRequestParams name request with
              | inl error => raise error
              | inr (Invalid error) => pure (failed 400 error)
              | inr Valid => handle w name request
              end
        end
    end
    (fun _ => pure (failed 500 "Failed to process request")).

(** [GET] *)
Definition GET : string := "Agent API endpoint ready".

End Endpoint.

(* ================================================================= *)
(** ** Scripted oracles and actuators *)

Module Scripts.

(** A browser in which every call returns [undefined]. *)
Definition calmBrowser : nat -> Tool -> string -> ActReply :=
  fun _ _ _ => ActReturns PUndefined.

(** A browser that takes screenshots and throws on everything else. *)
Definition brokenBrowser : nat -> Tool -> string -> ActReply :=
  fun _ method _ =>
    match method with
    | SCREENSHOT => ActReturns (PString "image")
    | _ => ActThrows (ThrownError "boom")
    end.

Definition clickStep : BrowserStep :=
  {| text := "Click the button";
     reasoning := "The button opens the form";
     tool := ACT;
     instruction := "click the submit button" |}.

(** The oracle that always returns the same ACT step. *)
Definition stubborn : Env :=
  {| generateObject := fun _ => OracleObject clickStep;
     stagehand := calmBrowser |}.

(** The same oracle in front of the broken browser. *)
Definition stubbornBroken : Env :=
  {| generateObject := fun _ => OracleObject clickStep;
     stagehand := brokenBrowser |}.

(** The oracle that gives up at once, with an empty instruction. *)
Definition silentFail : Env :=
  {| generateObject :=
       fun _ => OracleObject {| text := "Giving up";
                                reasoning := "Nothing works";
                                tool := FAIL;
                                instruction := "" |};
     stagehand := calmBrowser |}.

(** [marks n]: a text of [n] marks, different for every [n]. *)
Fixpoint marks (n : nat) : string :=
  match n with
  | O => EmptyString
  | S n' => String "x" (marks n')
  end.

Definition freshStep (n : nat) : BrowserStep :=
  {| text := "Type the next character";
     reasoning := "The field is not filled yet";
     tool := ACT;
     instruction := marks n |}.

(** The oracle that never repeats itself and never finishes. *)
Definition restless : Env :=
  {| generateObject := fun n => OracleObject (freshStep n);
     stagehand := calmBrowser |}.

Definition proseStep : BrowserStep :=
  {| text := "Click once more, then the Subtask Complete banner shows";
     reasoning := "The form is filled";
     tool := ACT;
     instruction := "click the submit button" |}.

(** The oracle that announces completion in prose, with the ACT tool. *)
Definition talkative : Env :=
  {| generateObject := fun _ => OracleObject proseStep;
     stagehand := calmBrowser |}.



(** A browser that throws on the action of [freshStep 14], the fifteenth
step of [restless], and on nothing else. *)
Definition lateBrowser : nat -> Tool -> string -> ActReply :=
  fun _ _ instr =>
    if String.eqb instr (marks 14) then ActThrows (ThrownError "boom")
    else ActReturns PUndefined.

(** The restless oracle in front of that browser. *)
Definition lateFault : Env :=
  {| generateObject := fun n => OracleObject (freshStep n);
     stagehand := lateBrowser |}.

(** The oracle behind which the language model cannot be reached. *)
Definition mute : Env :=
  {| generateObject := fun _ => OracleThrows (ThrownError "rate limit");
     stagehand := calmBrowser |}.

Definition openStep (n : nat) : BrowserStep :=
  {| text := "Open the next result";
     reasoning := "The page does not show the price";
     tool := GOTO;
     instruction := marks n |}.

(** The oracle that navigates to a new address in every step. *)
Definition wandering : Env :=
  {| generateObject := fun n => OracleObject (openStep n);
     stagehand := calmBrowser |}.

(** The oracle that cycles through three actions. *)
Definition cycleStep (n : nat) : BrowserStep :=
  match n mod 3 with
  | 0 => {| text := "Open the list";
            reasoning := "The list holds the entry";
            tool := ACT;
            instruction := "click the list" |}
  | 1 => {| text := "Read the entry";
            reasoning := "The entry shows the price";
            tool := EXTRACT;
            instruction := "the price of the entry" |}
  | _ => {| text := "Go back";
            reasoning := "The price was not shown";
            tool := NAVBACK;
            instruction := "" |}
  end.

Definition cycling : Env :=
  {| generateObject := fun n => OracleObject (cycleStep n);
     stagehand := calmBrowser |}.

(** The state of [stubborn] after two passes of the loop. *)
Definition twice : State :=
  snd (iteration stubborn defaultMaxRetries
         (snd (iteration stubborn defaultMaxRetries
                 (loopEntry stubborn PUndefined)))).

End Scripts.

(* ================================================================= *)
(** ** Plans *)

Module Plans.
Import Planner.

(** Three subtasks: A, then B and C, which both wait for A. *)
Definition fanOut : PlanObject :=
  {| o_summary := "Check the price, then report and archive it";
     o_subtasks :=
       [ {| p_description := "Open the product page";
            p_goal := "A";
            p_dependencies := None |};
         {| p_description := "Report the price";
            p_goal := "B";
            p_dependencies := Some [0%Z] |};
         {| p_description := "Archive the page";
            p_goal := "C";
            p_dependencies := Some [0%Z] |} ] |}.

(** Two subtasks that wait for each other. *)
Definition deadlock : PlanObject :=
  {| o_summary := "Each subtask waits for the other";
     o_subtasks :=
       [ {| p_description := "First"; p_goal := "A";
            p_dependencies := Some [1%Z] |};
         {| p_description := "Second"; p_goal := "B";
            p_dependencies := Some [0%Z] |} ] |}.

(** A subtask that waits for a position the plan does not have. *)
Definition dangling : PlanObject :=
  {| o_summary := "The dependency does not exist";
     o_subtasks :=
       [ {| p_description := "Only"; p_goal := "A";
            p_dependencies := Some [7%Z] |} ] |}.

End Plans.

(* ================================================================= *)
(** * Properties of the worker loop *)

Import Worker.
Local Open Scope list_scope.

(** ** Evaluation of the monad *)

Ltac proj_m :=
  cbn [set_steps set_extraction set_retryCount set_lastError
       set_currentScreenshot set_currentUrl set_previousExtraction
       set_recentActionHistory set_isSubtaskComplete set_oracleCalls
       set_stagehandCalls set_trace
       steps extraction retryCount lastError currentScreenshot currentUrl
       previousExtraction recentActionHistory isSubtaskComplete oracleCalls
       stagehandCalls trace afterDecide afterExec fst snd].

Ltac run_m :=
  cbv beta iota zeta delta
      [bind ret get modify throw try_catch emit pushStep sleep];
  proj_m.

Section LoopFacts.
Variable env : Env.

Lemma tool_eqb_spec (a b : Tool) : reflect (a = b) (tool_eqb a b).
Proof. destruct a, b; constructor; congruence. Qed.

(** ** The completion language *)

Lemma prefix_toLowerCase (p s : string) :
  prefix p s = true -> prefix (toLowerCase p) (toLowerCase s) = true.
Proof.
  revert s. induction p as [| a p IH]; intros s H.
  - destruct s; reflexivity.
  - destruct s as [| b s]; [discriminate |]. cbn in *.
    destruct (ascii_dec a b) as [Heq | Hne]; [| discriminate].
    subst b. destruct (ascii_dec (lowerChar a) (lowerChar a));
      [auto | contradiction].
Qed.

(** A text that contains a phrase contains it still, in lower case, after
    [toLowerCase]. *)
Lemma includes_toLowerCase (s phrase : string) :
  includes s phrase = true ->
  includes (toLowerCase s) (toLowerCase phrase) = true.
Proof.
  induction s as [| c s IH]; cbn [includes toLowerCase]; intros H.
  - rewrite orb_false_r in *. exact (prefix_toLowerCase phrase "" H).
  - apply orb_true_iff in H. apply orb_true_iff.
    destruct H as [H | H]; [left | right; auto].
    exact (prefix_toLowerCase phrase (String c s) H).
Qed.

(** The test of [getNextStep]: the text or the reasoning of the step, in
    lower case, contains one of the three phrases. *)
Lemma hasCompletionLanguage_spec (step : BrowserStep) :
  hasCompletionLanguage step = true <->
  exists phrase,
    In phrase completionPhrases /\
    (includes (toLowerCase (text step)) phrase = true \/
     includes (toLowerCase (reasoning step)) phrase = true).
Proof.
  unfold hasCompletionLanguage, completionPhrases.
  rewrite !orb_true_iff. split.
  - intros [[[[[H | H] | H] | H] | H] | H]; eexists;
      (split; [| (left; exact H) || (right; exact H)]); cbn; auto.
  - intros (phrase & [<- | [<- | [<- | []]]] & [H | H]); auto 7.
Qed.

Lemma getNextStep_run (st : State) :
  exists ns, getNextStep env st = (inr ns, afterDecide st) /\
    ((exists e, generateObject env (oracleCalls st) = OracleThrows e
                /\ ns = fallbackStep) \/
     (exists o, generateObject env (oracleCalls st) = OracleObject o /\
                ((tool o <> DONE /\ hasCompletionLanguage o = true
                  /\ ns = convertedDoneStep o) \/
                 ((tool o = DONE \/ hasCompletionLanguage o = false)
                  /\ ns = o)))).
Proof.
  unfold getNextStep, afterDecide. run_m.
  destruct (generateObject env (oracleCalls st)) as [o | e] eqn:Hreply.
  - destruct (tool_eqb_spec (tool o) DONE) as [Hdone | Hdone]; cbn [negb andb].
    + exists o. split; [reflexivity |]. right. exists o. auto.
    + destruct (hasCompletionLanguage o) eqn:Hlang.
      * eexists. split; [reflexivity |]. right. exists o.
        split; [reflexivity |]. left. auto.
      * eexists. split; [reflexivity |]. right. exists o. auto.
  - eexists. split; [reflexivity |]. left. eauto.
Qed.

Lemma executeStep_run (step : BrowserStep) (st : State) :
  tool step <> DONE -> tool step <> FAIL ->
  executeStep env step st =
  (match stagehand env (stagehandCalls st) (tool step) (instruction step) with
   | ActReturns value => inr value
   | ActThrows error => inl error
   end, afterExec step st).
Proof.
  intros Hd Hf.
  unfold executeStep, runStagehand, afterExec.
  destruct (tool step) eqn:Ht; try congruence; run_m;
    destruct (stagehand env (stagehandCalls st) _ (instruction step));
    reflexivity.
Qed.

Lemma isRepeatingAction_run (step : BrowserStep) (st : State) :
  isRepeatingAction step st =
  (inr (MAX_DUPLICATES <=? occurrences step (recentActionHistory st))%nat,
   set_recentActionHistory (pushHistory step (recentActionHistory st)) st).
Proof.
  unfold isRepeatingAction, pushHistory. run_m.
  destruct (Nat.ltb _ _); reflexivity.
Qed.

Lemma getNextStep_decided (st : State) :
  exists ns, getNextStep env st = (inr ns, afterDecide st) /\ Decided env st ns.
Proof.
  destruct (getNextStep_run st) as (ns & Hrun & [(e & He & ->) | (o & Ho & [(Hd & Hl & ->) | (H & ->)])]);
    exists ns || eexists; (split; [exact Hrun |]).
  - eapply Decided_fallback; eauto.
  - eapply Decided_converted; eauto.
  - eapply Decided_verbatim; eauto.
Qed.

Lemma Decided_no_language (st : State) (ns : BrowserStep) :
  Decided env st ns -> tool ns <> DONE -> hasCompletionLanguage ns = false.
Proof.
  intros [e He | o Ho Hd Hl | o Ho [Hd | Hl]] Hnd.
  - vm_compute. reflexivity.
  - exfalso. apply Hnd. reflexivity.
  - contradiction.
  - exact Hl.
Qed.

Lemma refreshScreenshot_run (shot : BrowserStep) (st : State) :
  tool shot = SCREENSHOT ->
  exists st', refreshScreenshot env shot st = (inr tt, st') /\
    steps st' = steps st /\ retryCount st' = retryCount st /\
    recentActionHistory st' = recentActionHistory st /\
    isSubtaskComplete st' = isSubtaskComplete st /\
    oracleCalls st' = oracleCalls st /\
    extraction st' = extraction st /\
    trace st' = (trace st ++ [EvExec shot])%list.
Proof.
  intros Ht. unfold refreshScreenshot.
  cbv beta iota zeta delta [try_catch bind].
  rewrite executeStep_run by (rewrite Ht; discriminate).
  destruct (stagehand env _ _ _); run_m; eexists; (split; [reflexivity |]);
    unfold afterExec; proj_m; repeat split; reflexivity.
Qed.

Lemma refreshUrl_run (st : State) :
  exists st', refreshUrl env st = (inr tt, st') /\
    steps st' = steps st /\ retryCount st' = retryCount st /\
    recentActionHistory st' = recentActionHistory st /\
    isSubtaskComplete st' = isSubtaskComplete st /\
    oracleCalls st' = oracleCalls st /\
    extraction st' = extraction st /\
    trace st' = (trace st ++ [EvExec urlStep])%list.
Proof.
  unfold refreshUrl.
  cbv beta iota zeta delta [try_catch bind].
  rewrite executeStep_run by discriminate.
  destruct (stagehand env _ _ _) as [[ | | s | [| first items] | repr] | e];
    run_m; eexists; (split; [reflexivity |]);
    unfold afterExec; proj_m; repeat split; reflexivity.
Qed.

Lemma effect_intro (st st' : State) newSteps retries history events :
  steps st' = (steps st ++ newSteps)%list ->
  retryCount st' = (retryCount st + retries)%Z ->
  recentActionHistory st' = history ->
  isSubtaskComplete st' = isSubtaskComplete st ->
  oracleCalls st' = S (oracleCalls st) ->
  trace st' = (trace st ++ EvDecide (steps st) :: events)%list ->
  effect st st' newSteps retries history events.
Proof. unfold effect. intuition. Qed.

Ltac effect_tac :=
  apply effect_intro; proj_m;
  rewrite ?app_nil_r, <- ?app_assoc; cbn [app]; try reflexivity; try lia.

Ltac refreshed shot :=
  match goal with
  | |- context [refreshScreenshot env shot ?s] =>
      let st1 := fresh "st1" in
      destruct (refreshScreenshot_run shot s eq_refl)
        as (st1 & -> & ? & ? & ? & ? & ? & ? & ?)
  end.

Ltac effect_via_frame :=
  apply effect_intro; proj_m;
  repeat match goal with H : _ = _ |- _ => rewrite H; clear H end;
  proj_m; rewrite <- ?app_assoc; cbn [app]; try reflexivity; try lia.

Lemma iteration_spec (maxRetries : Z) (st : State) :
  exists control st',
    iteration env maxRetries st = (inr control, st') /\
    Pass env maxRetries st control st'.
Proof.
  unfold iteration, loopBody.
  cbv beta iota zeta delta [try_catch bind get].
  destruct (Nat.leb_spec MAX_STEPS (length (steps st))) as [Hmax | Hmax].
  { do 2 eexists. split; [reflexivity | apply Pass_ceiling; exact Hmax]. }
  destruct (getNextStep_decided st) as (ns & -> & Hns).
  destruct (tool_eqb_spec (tool ns) DONE) as [Hdone | Hdone].
  { run_m. do 2 eexists. split; [reflexivity |].
    eapply Pass_done; eauto. effect_tac. }
  destruct (tool_eqb_spec (tool ns) FAIL) as [Hfail | Hfail].
  { run_m. do 2 eexists. split; [reflexivity |].
    eapply Pass_fail; eauto. effect_tac. }
  rewrite isRepeatingAction_run. proj_m.
  destruct (Nat.leb_spec MAX_DUPLICATES
              (occurrences ns (recentActionHistory st))) as [Hrep | Hrep].
  { (* a repeated action *)
    run_m.
    destruct (Z.leb_spec maxRetries (retryCount st + 1))
      as [Hretry | Hretry].
    - do 2 eexists. split; [reflexivity |].
      eapply Pass_repeat_failed; eauto. effect_tac.
    - refreshed loopBreakScreenshot.
      do 2 eexists. split; [reflexivity |].
      eapply Pass_repeat_pause; eauto. clear Hns. effect_via_frame. }
  (* a new action *)
  run_m.
  rewrite (Decided_no_language st ns Hns Hdone).
  destruct (tool_eqb_spec (tool ns) CLOSE) as [Hclose | Hclose];
    cbn [negb].
  { do 2 eexists. split; [reflexivity |].
    eapply Pass_close; eauto. effect_tac. }
  assert (Hterm : terminalTool (tool ns) = false)
    by (destruct (tool ns); congruence || reflexivity).
  rewrite executeStep_run by assumption.
  proj_m.
  destruct (stagehand env (stagehandCalls st) (tool ns) (instruction ns))
    as [value | error] eqn:Hreply.
  - (* the action returns *)
    set (b1 := tool_eqb (tool ns) EXTRACT && truthy value).
    set (b2 := tool_eqb (tool ns) GOTO || tool_eqb (tool ns) NAVBACK).
    destruct (negb (tool_eqb (tool ns) SCREENSHOT)) eqn:Hshot.
    all: destruct b2 eqn:Hnav; subst b2.
    all: destruct b1; cbv beta iota zeta.
    all: repeat match goal with
      | |- context [refreshUrl env ?s] =>
          destruct (refreshUrl_run s)
            as (? & -> & ? & ? & ? & ? & ? & ? & ?)
      | |- context [refreshScreenshot env updatedScreenshot ?s] =>
          destruct (refreshScreenshot_run updatedScreenshot s eq_refl)
            as (? & -> & ? & ? & ? & ? & ? & ? & ?)
      end.
    all: do 2 eexists; (split; [reflexivity |]).
    all: eapply Pass_executed; eauto.
    all: unfold followUp; rewrite Hnav, Hshot.
    all: clear Hns Hreply Hnav Hshot Hterm; effect_via_frame.
  - (* the action throws: the handler of the inner try *)
    unfold loopCatch. run_m.
    destruct (Z.leb_spec maxRetries (retryCount st + 1))
      as [Hretry | Hretry].
    + do 2 eexists. split; [reflexivity |].
      eapply Pass_fault_failed; eauto. effect_tac.
    + refreshed recoveryScreenshot.
      do 2 eexists. split; [reflexivity |].
      eapply Pass_fault_retry; eauto.
      clear Hns Hreply Hterm. effect_via_frame.
Qed.

Lemma Decided_fun (st : State) (a b : BrowserStep) :
  Decided env st a -> Decided env st b -> a = b.
Proof.
  intros [e He | o Ho Hd Hl | o Ho Hv] [e' He' | o' Ho' Hd' Hl' | o' Ho' Hv'];
    try congruence.
  - assert (o = o') by congruence. subst o'.
    destruct Hv' as [H | H]; congruence.
  - assert (o = o') by congruence. subst o'.
    destruct Hv as [H | H]; congruence.
Qed.

Lemma getNextStep_Decided (st st1 : State) (ns : BrowserStep) :
  getNextStep env st = (inr ns, st1) ->
  Decided env st ns /\ st1 = afterDecide st.
Proof.
  intros H. destruct (getNextStep_decided st) as (ns' & Hrun & Hd).
  rewrite Hrun in H. inversion H; subst. auto.
Qed.

Lemma iteration_pass (maxRetries : Z) (st st' : State) (control : Control) :
  iteration env maxRetries st = (inr control, st') ->
  Pass env maxRetries st control st'.
Proof.
  intros H. destruct (iteration_spec maxRetries st) as (c & s & Hrun & Hp).
  rewrite Hrun in H. inversion H; subst. exact Hp.
Qed.

(** The loop, one pass unfolded. *)
Lemma whileLoop_S (fuel : nat) (maxRetries : Z) (st : State) :
  whileLoop env (S fuel) maxRetries st =
  if isSubtaskComplete st then (inr LoopEnded, st)
  else
    match iteration env maxRetries st with
    | (inl error, st') => (inl error, st')
    | (inr (Return result), st') => (inr (Returned result), st')
    | (inr Continue, st') => whileLoop env fuel maxRetries st'
    end.
Proof.
  cbn [whileLoop]. cbv beta iota zeta delta [bind get ret].
  destruct (isSubtaskComplete st); [reflexivity |].
  destruct (iteration env maxRetries st) as [[error | [| result]] st'];
    reflexivity.
Qed.

(** The rule of the loop: an invariant of the passes that continue gives a
    property of the result, and the loop ends before the fuel does when it
    is given more passes than [MAX_STEPS] leaves room for. *)
Lemma whileLoop_rule (maxRetries : Z) (Inv : State -> Prop)
      (Post : WorkerResult -> State -> Prop) :
  (forall st, Inv st -> isSubtaskComplete st = false) ->
  (forall st control st',
      Inv st ->
      iteration env maxRetries st = (inr control, st') ->
      Pass env maxRetries st control st' ->
      match control with
      | Continue => Inv st'
      | Return result => Post result st'
      end) ->
  forall fuel st,
    Inv st -> length (steps st) <= MAX_STEPS ->
    match whileLoop env fuel maxRetries st with
    | (inr (Returned result), st') => Post result st'
    | (inr FuelExhausted, _) => fuel + length (steps st) <= MAX_STEPS
    | _ => False
    end.
Proof.
  intros Hflag Hpass. induction fuel as [| fuel IH]; intros st Hinv Hlen.
  - cbn. exact Hlen.
  - rewrite whileLoop_S, (Hflag st Hinv).
    destruct (iteration_spec maxRetries st) as (control & st' & Hrun & Hp).
    rewrite Hrun. specialize (Hpass st control st' Hinv Hrun Hp).
    destruct control as [| result]; [| exact Hpass].
    assert (Hgrow : length (steps st') = S (length (steps st))
                    /\ length (steps st) < MAX_STEPS).
    { inversion Hp; subst;
        match goal with
        | H : effect _ _ _ _ _ _ |- _ => destruct H as (Hs & _)
        end; rewrite Hs, length_app; cbn [length]; lia. }
    destruct Hgrow as [Hgrow Hroom].
    specialize (IH st' Hpass ltac:(lia)).
    destruct (whileLoop env fuel maxRetries st') as [[error | [r | |]] st''];
      try exact IH. lia.
Qed.

(** The statements before the loop: they leave one call in the trace. *)
Lemma prologue_run (previousExtraction : Payload) :
  prologue env (initialState previousExtraction)
  = (inr tt, loopEntry env previousExtraction).
Proof.
  unfold loopEntry, prologue.
  cbv beta iota zeta delta [bind try_catch throw modify].
  rewrite executeStep_run by discriminate.
  destruct (stagehand env _ _ _); reflexivity.
Qed.

Lemma loopEntry_fields (previousExtraction : Payload) :
  let st := loopEntry env previousExtraction in
  steps st = [] /\ retryCount st = 0%Z /\ recentActionHistory st = [] /\
  isSubtaskComplete st = false /\ oracleCalls st = 0 /\
  trace st = [EvExec initialScreenshot].
Proof.
  unfold loopEntry, prologue.
  cbv beta iota zeta delta [bind try_catch throw modify].
  rewrite executeStep_run by discriminate.
  destruct (stagehand env _ _ _); cbn; repeat split; reflexivity.
Qed.

(** [runSubtask] in terms of the loop. *)
Lemma runSubtask_loop (fuel : nat) (previousExtraction : Payload)
      (maxRetries : Z) :
  runSubtask env fuel previousExtraction maxRetries =
  match whileLoop env fuel maxRetries (loopEntry env previousExtraction) with
  | (inr (Returned result), st') => (Resolves ReturnInLoop result, st')
  | (inr LoopEnded, st') =>
      let st'' :=
        set_steps
          (steps st' ++ [doneStep "Reached the end of execution successfully"])
          st' in
      (Resolves AfterLoop (doneResult st''), st'')
  | (inr FuelExhausted, st') => (Unfinished, st')
  | (inl error, st') =>
      let st'' :=
        set_steps
          (steps st' ++ [failStep "Fatal error occurred" (errorMessage error)])
          (set_lastError (Some (errorMessage error)) st') in
      (Resolves OuterCatch (failedResult (errorMessage error) st''), st'')
  end.
Proof.
  unfold runSubtask, executeSubtaskM.
  cbv beta iota zeta delta [bind try_catch].
  rewrite prologue_run.
  destruct (whileLoop env fuel maxRetries (loopEntry env previousExtraction))
    as [[error | [result | |]] st']; reflexivity.
Qed.

(** The rule of [executeSubtask]: it returns from inside the loop, with
    whatever an invariant of the loop gives. *)
Lemma executeSubtask_rule (previousExtraction : Payload) (maxRetries : Z)
      (Inv : State -> Prop) (Post : WorkerResult -> State -> Prop) :
  Inv (loopEntry env previousExtraction) ->
  (forall st, Inv st -> isSubtaskComplete st = false) ->
  (forall st control st',
      Inv st ->
      iteration env maxRetries st = (inr control, st') ->
      Pass env maxRetries st control st' ->
      match control with
      | Continue => Inv st'
      | Return result => Post result st'
      end) ->
  exists result st',
    executeSubtask env previousExtraction maxRetries
    = (Resolves ReturnInLoop result, st') /\ Post result st'.
Proof.
  intros Hentry Hflag Hpass.
  unfold executeSubtask. rewrite runSubtask_loop.
  pose proof (whileLoop_rule maxRetries Inv Post Hflag Hpass (S MAX_STEPS)
                (loopEntry env previousExtraction) Hentry) as H.
  destruct (loopEntry_fields previousExtraction) as (Hs & _).
  rewrite Hs in H. specialize (H ltac:(cbn; unfold MAX_STEPS; lia)).
  destruct (whileLoop env (S MAX_STEPS) maxRetries
              (loopEntry env previousExtraction))
    as [[error | [result | |]] st']; try contradiction.
  - eauto.
  - unfold MAX_STEPS in H. cbn in H. lia.
Qed.

(** ** The history of recent actions *)

Lemma pushHistory_length (step : BrowserStep) (history : list (Tool * string)) :
  length history <= MAX_HISTORY ->
  length (pushHistory step history) <= MAX_HISTORY.
Proof.
  intros H. unfold pushHistory.
  destruct (Nat.ltb_spec MAX_HISTORY
              (length (history ++ [(tool step, instruction step)])))
    as [Hlong | Hshort]; [| exact Hshort].
  rewrite length_app in Hlong. cbn [length] in Hlong.
  destruct history as [| first rest]; cbn [app tl].
  - unfold MAX_HISTORY. cbn. lia.
  - rewrite length_app. cbn [length] in *. lia.
Qed.

Lemma pushHistory_Forall (P : Tool * string -> Prop) (step : BrowserStep)
      (history : list (Tool * string)) :
  Forall P history -> P (tool step, instruction step) ->
  Forall P (pushHistory step history).
Proof.
  intros Hall Hstep. unfold pushHistory.
  assert (Hext : Forall P (history ++ [(tool step, instruction step)])).
  { apply Forall_app. split; [exact Hall | constructor; [exact Hstep | constructor]]. }
  destruct (Nat.ltb _ _); [| exact Hext].
  destruct (history ++ [(tool step, instruction step)]) as [| first rest];
    [constructor | inversion Hext; assumption].
Qed.

Lemma sameAction_true (step : BrowserStep) (action : Tool * string) :
  sameAction step action = true <->
  action = (tool step, instruction step).
Proof.
  unfold sameAction. destruct action as [t i]. cbn [fst snd].
  rewrite andb_true_iff, String.eqb_eq.
  destruct (tool_eqb_spec t (tool step)); split; intros H.
  - destruct H. congruence.
  - inversion H. auto.
  - destruct H. discriminate.
  - inversion H. contradiction.
Qed.

(** An action that is not in the history does not occur in it. *)
Lemma occurrences_absent (step : BrowserStep) (history : list (Tool * string)) :
  ~ In (tool step, instruction step) history ->
  occurrences step history = 0.
Proof.
  unfold occurrences. induction history as [| action rest IH]; intros Hnot.
  - reflexivity.
  - cbn [filter]. destruct (sameAction step action) eqn:Hsame.
    + apply sameAction_true in Hsame. exfalso. apply Hnot. left. exact Hsame.
    + apply IH. intros Hin. apply Hnot. right. exact Hin.
Qed.

Lemma occurrences_terminal (step : BrowserStep) (history : list (Tool * string)) :
  Forall (fun action => terminalTool (fst action) = false) history ->
  terminalTool (tool step) = true ->
  occurrences step history = 0.
Proof.
  intros Hall Hterm. apply occurrences_absent. intros Hin.
  rewrite Forall_forall in Hall. specialize (Hall _ Hin). cbn in Hall.
  congruence.
Qed.

(** ** Pauses in a trace *)

Lemma sleeps_app (tr1 tr2 : list Event) :
  sleeps (tr1 ++ tr2) = sleeps tr1 + sleeps tr2.
Proof. unfold sleeps. rewrite filter_app, length_app. reflexivity. Qed.

(** ** The invariant of the loop *)

Lemma loopEntry_invariant (previousExtraction : Payload) (maxRetries : Z) :
  LoopInvariant maxRetries (loopEntry env previousExtraction).
Proof.
  destruct (loopEntry_fields previousExtraction)
    as (Hs & Hr & Hh & Hf & Ho & Ht).
  unfold LoopInvariant. rewrite Hs, Hr, Hh, Hf, Ht.
  repeat split; cbn; try lia; auto.
  intros step [H | []]. inversion H. reflexivity.
Qed.

Lemma not_done_fail_close (t : Tool) :
  t <> DONE -> t <> FAIL -> t <> CLOSE -> terminalTool t = false.
Proof. destruct t; congruence || reflexivity. Qed.

(** A pass keeps the invariant when it continues.  When it returns, it has
    paused no more and the calls of its trace still name no terminal
    tool. *)
Lemma Pass_invariant (maxRetries : Z) (st st' : State) (control : Control) :
  LoopInvariant maxRetries st ->
  Pass env maxRetries st control st' ->
  match control with
  | Continue => LoopInvariant maxRetries st'
  | Return result =>
      sleeps (trace st') = sleeps (trace st) /\
      (forall step, In (EvExec step) (trace st') ->
                    terminalTool (tool step) = false)
  end.
Proof.
  intros (Hflag & Hlen & Hhlen & Hhist & Hexec & Hsleep & Hretry) Hpass.
  assert (Hshot : forall text reasoning,
             terminalTool (tool (screenshotStep text reasoning)) = false)
    by reflexivity.
  inversion Hpass; subst;
    try match goal with
      | H : effect _ _ _ _ _ _ |- _ =>
          destruct H as (Es & Er & Eh & Ef & Eo & Et)
      end.
  - (* ceiling *) auto.
  - (* DONE *)
    rewrite Et, sleeps_app. split; [cbn; lia |].
    intros step Hin. apply in_app_or in Hin.
    destruct Hin as [Hin | [Hin | []]]; [auto | discriminate].
  - (* FAIL *)
    rewrite Et, sleeps_app. split; [cbn; lia |].
    intros step Hin. apply in_app_or in Hin.
    destruct Hin as [Hin | [Hin | []]]; [auto | discriminate].
  - (* repetition, retries exhausted *)
    rewrite Et, sleeps_app. split; [cbn; lia |].
    intros step Hin. apply in_app_or in Hin.
    destruct Hin as [Hin | [Hin | []]]; [auto | discriminate].
  - (* repetition, pause *)
    assert (Hnt : terminalTool (tool nextStep) = false).
    { destruct (terminalTool (tool nextStep)) eqn:Hterm; [| reflexivity].
      rewrite (occurrences_terminal nextStep _ Hhist Hterm) in *.
      unfold MAX_DUPLICATES in *. lia. }
    unfold LoopInvariant. rewrite Es, Er, Eh, Ef, Et.
    repeat split.
    + exact Hflag.
    + rewrite length_app. cbn [length]. lia.
    + apply pushHistory_length. exact Hhlen.
    + apply pushHistory_Forall; assumption.
    + intros step Hin. apply in_app_or in Hin.
      destruct Hin as [Hin | [Hin | [Hin | [Hin | []]]]];
        try discriminate; [auto |].
      inversion Hin. reflexivity.
    + rewrite sleeps_app. cbn. lia.
    + lia.
  - (* CLOSE *)
    rewrite Et, sleeps_app. split; [cbn; lia |].
    intros step Hin. apply in_app_or in Hin.
    destruct Hin as [Hin | [Hin | []]]; [auto | discriminate].
  - (* the action returned *)
    unfold LoopInvariant. rewrite Es, Er, Eh, Ef, Et.
    repeat split.
    + exact Hflag.
    + rewrite length_app. cbn [length]. lia.
    + apply pushHistory_length. exact Hhlen.
    + apply pushHistory_Forall; assumption.
    + intros step Hin. apply in_app_or in Hin.
      destruct Hin as [Hin | [Hin | [Hin | Hin]]];
        [auto | discriminate | inversion Hin; subst; assumption |].
      unfold followUp in Hin. apply in_app_or in Hin.
      destruct Hin as [Hin | Hin];
        [destruct (_ || _) | destruct (negb _)];
        cbn in Hin; try contradiction;
        destruct Hin as [Hin | []]; inversion Hin; reflexivity.
    + rewrite sleeps_app. cbn [app]. unfold followUp.
      destruct (_ || _), (negb _); cbn; lia.
    + lia.
  - (* the action threw, retries exhausted *)
    rewrite Et, sleeps_app. split; [cbn; lia |].
    intros step Hin. apply in_app_or in Hin.
    destruct Hin as [Hin | [Hin | [Hin | []]]];
      [auto | discriminate | inversion Hin; subst; assumption].
  - (* the action threw, retry *)
    unfold LoopInvariant. rewrite Es, Er, Eh, Ef, Et.
    repeat split.
    + exact Hflag.
    + rewrite length_app. cbn [length]. lia.
    + apply pushHistory_length. exact Hhlen.
    + apply pushHistory_Forall; assumption.
    + intros step Hin. apply in_app_or in Hin.
      destruct Hin as [Hin | [Hin | [Hin | [Hin | [Hin | []]]]]];
        try discriminate; [auto | inversion Hin; subst; assumption |].
      inversion Hin. reflexivity.
    + rewrite sleeps_app. cbn. lia.
    + lia.
Qed.

Lemma Reachable_invariant (previousExtraction : Payload) (maxRetries : Z)
      (st : State) :
  Reachable env previousExtraction maxRetries st ->
  LoopInvariant maxRetries st.
Proof.
  induction 1 as [| st st' Hreach IH Hloop Hrun].
  - apply loopEntry_invariant.
  - apply (Pass_invariant maxRetries st st' Continue IH).
    apply iteration_pass. exact Hrun.
Qed.

(** ** What a pass does to the steps *)

Lemma Pass_steps (maxRetries : Z) (st st' : State) (control : Control) :
  Pass env maxRetries st control st' ->
  (exists pushed, steps st' = steps st ++ pushed) /\
  match control with
  | Continue => True
  | Return result =>
      res_steps result = steps st' /\ res_retryCount result = retryCount st'
  end.
Proof.
  intros Hpass.
  inversion Hpass; subst;
    try match goal with
      | H : effect _ _ _ _ _ _ |- _ => destruct H as (Es & _)
      end;
    (split; [| try (split; reflexivity); exact I]);
    try (eexists; exact Es).
  exists []. rewrite app_nil_r. reflexivity.
Qed.

(** The loop never ends by its condition and never throws, whatever the
    fuel. *)
Lemma whileLoop_exits (fuel : nat) (maxRetries : Z) (st : State) :
  LoopInvariant maxRetries st ->
  match whileLoop env fuel maxRetries st with
  | (inr (Returned _), _) | (inr FuelExhausted, _) => True
  | _ => False
  end.
Proof.
  intros Hinv.
  pose proof (whileLoop_rule maxRetries (LoopInvariant maxRetries)
                (fun _ _ => True)) as Hrule.
  specialize (Hrule (fun st H => proj1 H)).
  assert (Hpass : forall st control st',
             LoopInvariant maxRetries st ->
             iteration env maxRetries st = (inr control, st') ->
             Pass env maxRetries st control st' ->
             match control with
             | Continue => LoopInvariant maxRetries st'
             | Return _ => True
             end).
  { intros s c s' Hi _ Hp.
    pose proof (Pass_invariant maxRetries s s' c Hi Hp) as H.
    destruct c; [exact H | exact I]. }
  specialize (Hrule Hpass fuel st Hinv (proj1 (proj2 Hinv))).
  destruct (whileLoop env fuel maxRetries st) as [[e | [r | |]] st'];
    auto.
Qed.

(** C9. The statements that follow the [while] loop of [executeSubtask]
    are never reached: whenever the loop condition is evaluated
    [isSubtaskComplete] is false, so however many passes the loop is given,
    a result of [executeSubtask] comes from a [return] inside the loop
    (never from the "Reached the end of execution successfully" path), and
    [executeSubtask] does return such a result. *)
Theorem after_loop_unreachable (previousExtraction : Payload)
        (maxRetries : Z) :
  (forall st, Reachable env previousExtraction maxRetries st ->
              isSubtaskComplete st = false) /\
  (forall fuel origin result st',
      runSubtask env fuel previousExtraction maxRetries
      = (Resolves origin result, st') ->
      origin = ReturnInLoop) /\
  (exists result st',
      executeSubtask env previousExtraction maxRetries
      = (Resolves ReturnInLoop result, st')).
Proof.
  split; [| split].
  - intros st Hreach.
    exact (proj1 (Reachable_invariant _ _ _ Hreach)).
  - intros fuel origin result st' Hrun.
    rewrite runSubtask_loop in Hrun.
    pose proof (whileLoop_exits fuel maxRetries
                  (loopEntry env previousExtraction)
                  (loopEntry_invariant previousExtraction maxRetries)) as H.
    destruct (whileLoop env fuel maxRetries
                (loopEntry env previousExtraction))
      as [[e | [r | |]] s]; try contradiction.
    + inversion Hrun. reflexivity.
    + discriminate.
  - destruct (executeSubtask_rule previousExtraction maxRetries
                (LoopInvariant maxRetries) (fun _ _ => True))
      as (result & st' & Hrun & _).
    + apply loopEntry_invariant.
    + intros st H. exact (proj1 H).
    + intros s c s' Hi _ Hp.
      pose proof (Pass_invariant maxRetries s s' c Hi Hp) as H.
      destruct c; [exact H | exact I].
    + eauto.
Qed.

(** ** The results of the loop *)

Lemma maxStepsError_text :
  maxStepsError = "Exceeded maximum number of steps (15)"%string.
Proof. reflexivity. Qed.

Lemma repeatError_nonempty (t : Tool) (retries : Z) :
  repeatError t retries <> ""%string.
Proof. unfold repeatError. cbn. discriminate. Qed.

(** A decided FAIL step is the object the oracle returned. *)
Lemma Decided_FAIL (st : State) (step : BrowserStep) :
  Decided env st step -> tool step = FAIL ->
  generateObject env (oracleCalls st) = OracleObject step.
Proof.
  intros [e He | o Ho Hd Hl | o Ho Hv] Ht; try discriminate. exact Ho.
Qed.

(** The status and the error of a result returned by a pass. *)
Lemma Pass_result (maxRetries : Z) (st st' : State) (result : WorkerResult) :
  Pass env maxRetries st (Return result) st' ->
  (res_status result = Status.DONE /\ res_error result = None) \/
  (res_status result = Status.FAILED /\
   exists error,
     res_error result = Some error /\
     (error = ""%string ->
      (exists n object,
          generateObject env n = OracleObject object /\
          tool object = FAIL /\ instruction object = ""%string) \/
      (exists n method instr thrown,
          stagehand env n method instr = ActThrows thrown /\
          errorMessage thrown = ""%string))).
Proof.
  intros Hpass. inversion Hpass; subst.
  - right. split; [reflexivity |]. eexists. split; [reflexivity |].
    rewrite maxStepsError_text. discriminate.
  - left. split; reflexivity.
  - right. split; [reflexivity |]. eexists. split; [reflexivity |].
    intros Hempty. left. exists (oracleCalls st), nextStep.
    repeat split; auto using Decided_FAIL.
  - right. split; [reflexivity |]. eexists. split; [reflexivity |].
    intros Hempty. exfalso. exact (repeatError_nonempty _ _ Hempty).
  - left. split; reflexivity.
  - right. split; [reflexivity |]. eexists. split; [reflexivity |].
    intros Hempty. right. eauto 6.
Qed.

(** A loop that returned returns the same with more fuel. *)
Lemma whileLoop_more_fuel (fuel extra : nat) (maxRetries : Z) (st st' : State)
      (result : WorkerResult) :
  whileLoop env fuel maxRetries st = (inr (Returned result), st') ->
  whileLoop env (fuel + extra) maxRetries st = (inr (Returned result), st').
Proof.
  revert st. induction fuel as [| fuel IH]; intros st Hrun.
  - discriminate.
  - cbn [Nat.add]. rewrite whileLoop_S in *.
    destruct (isSubtaskComplete st); [discriminate |].
    destruct (iteration env maxRetries st) as [[error | [| r]] s];
      [discriminate | apply IH; exact Hrun | exact Hrun].
Qed.

(** C3 (amended). Whatever the oracle and the browser return or throw,
    [executeSubtask] returns, from inside its loop, a result whose status
    is DONE or FAILED; it throws nothing, and unrolling the loop further
    gives the same result.  A DONE result has no error; a FAILED result has
    an error text, which is empty only when it is the empty instruction of
    a FAIL step of the oracle or the empty message of a value thrown by the
    browser. *)
Theorem executeSubtask_total (previousExtraction : Payload) (maxRetries : Z) :
  exists result st',
    executeSubtask env previousExtraction maxRetries
    = (Resolves ReturnInLoop result, st') /\
    (forall extra,
        runSubtask env (S MAX_STEPS + extra) previousExtraction maxRetries
        = (Resolves ReturnInLoop result, st')) /\
    ((res_status result = Status.DONE /\ res_error result = None) \/
     (res_status result = Status.FAILED /\
      exists error,
        res_error result = Some error /\
        (error = ""%string ->
         (exists n object,
             generateObject env n = OracleObject object /\
             tool object = FAIL /\ instruction object = ""%string) \/
         (exists n method instr thrown,
             stagehand env n method instr = ActThrows thrown /\
             errorMessage thrown = ""%string)))).
Proof.
  destruct (executeSubtask_rule previousExtraction maxRetries
              (LoopInvariant maxRetries)
              (fun result _ =>
                 (res_status result = Status.DONE /\
                  res_error result = None) \/
                 (res_status result = Status.FAILED /\
                  exists error,
                    res_error result = Some error /\
                    (error = ""%string ->
                     (exists n object,
                         generateObject env n = OracleObject object /\
                         tool object = FAIL /\
                         instruction object = ""%string) \/
                     (exists n method instr thrown,
                         stagehand env n method instr = ActThrows thrown /\
                         errorMessage thrown = ""%string)))))
    as (result & st' & Hrun & Hpost).
  - apply loopEntry_invariant.
  - intros st H. exact (proj1 H).
  - intros st control st' Hinv _ Hpass.
    destruct control as [| result].
    + exact (Pass_invariant maxRetries st st' Continue Hinv Hpass).
    + exact (Pass_result maxRetries st st' result Hpass).
  - exists result, st'. split; [exact Hrun |]. split; [| exact Hpost].
    intros extra. unfold executeSubtask in Hrun.
    rewrite runSubtask_loop in *.
    destruct (whileLoop env (S MAX_STEPS) maxRetries
                (loopEntry env previousExtraction))
      as [[error | [r | |]] s] eqn:Hloop; try discriminate.
    inversion Hrun; subst.
    rewrite (whileLoop_more_fuel _ extra _ _ _ _ Hloop). reflexivity.
Qed.

(** ** Single passes *)

(** In the cases of a pass, the step is the one [getNextStep] decided. *)
Ltac the_step Hknown :=
  match goal with
  | H : Decided env ?st ?x |- _ =>
      tryif constr_eq H Hknown then fail else
        (pose proof (Decided_fun st _ x Hknown H); subst x; clear H)
  end.

(** The ways in which a case of a pass contradicts what is known. *)
Ltac absurd_pass :=
  exfalso;
  first
    [ lia
    | discriminate
    | congruence
    | match goal with H : tool _ <> _ |- _ => apply H; reflexivity end
    | match goal with
      | H : terminalTool _ = false |- _ => cbn in H; discriminate
      end
    | match goal with
      | H : terminalTool ?t = false, E : ?t = _ |- _ =>
          rewrite E in H; discriminate
      end
    | unfold MAX_DUPLICATES in *; lia ].

(** C4. When the object returned by the oracle carries one of the
    completion phrases in its text or reasoning and its tool is not DONE,
    the pass replaces it by a synthesized DONE step, appends that step and
    returns a DONE result; its only call to the outside world is the
    request to the oracle, so the action of the object is not executed. *)
Theorem implicit_completion (maxRetries : Z) (st : State)
        (object : BrowserStep) :
  length (steps st) < MAX_STEPS ->
  generateObject env (oracleCalls st) = OracleObject object ->
  tool object <> DONE ->
  hasCompletionLanguage object = true ->
  exists st',
    iteration env maxRetries st = (inr (Return (doneResult st')), st') /\
    res_status (doneResult st') = Status.DONE /\
    steps st' = steps st ++ [convertedDoneStep object] /\
    tool (convertedDoneStep object) = DONE /\
    trace st' = trace st ++ [EvDecide (steps st)].
Proof.
  intros Hlen Hreply Htool Hlang.
  assert (Hns : Decided env st (convertedDoneStep object))
    by (eapply Decided_converted; eauto).
  destruct (iteration_spec maxRetries st) as (control & st' & Hrun & Hpass).
  inversion Hpass; subst; try (exfalso; lia); the_step Hns;
    try absurd_pass.
  match goal with
  | H : effect _ _ _ _ _ _ |- _ => destruct H as (Es & Er & Eh & Ef & Eo & Et)
  end.
  exists st'. repeat split; assumption.
Qed.



(** What a pass leaves alone: the flag of the loop and the trace so far. *)
Lemma Pass_frame (maxRetries : Z) (st st' : State) (control : Control) :
  Pass env maxRetries st control st' ->
  isSubtaskComplete st' = isSubtaskComplete st /\
  exists events, trace st' = trace st ++ events.
Proof.
  intros Hpass.
  inversion Hpass; subst;
    try match goal with
      | H : effect _ _ _ _ _ _ |- _ =>
          destruct H as (_ & _ & _ & Ef & _ & Et)
      end.
  - split; [reflexivity |]. exists []. rewrite app_nil_r. reflexivity.
  - eauto. - eauto. - eauto. - eauto. - eauto. - eauto. - eauto. - eauto.
Qed.

(** The head of the loop: below the ceiling a pass starts with a request
    to the oracle; at the ceiling it returns the failure and calls
    nothing. *)
Lemma head_of_loop (maxRetries : Z) (st : State) :
  (length (steps st) < MAX_STEPS ->
   exists control st' events,
     iteration env maxRetries st = (inr control, st') /\
     trace st' = trace st ++ EvDecide (steps st) :: events) /\
  (MAX_STEPS <= length (steps st) ->
   iteration env maxRetries st
   = (inr (Return (failedResult maxStepsError st)), st)).
Proof.
  destruct (iteration_spec maxRetries st) as (control & st' & Hrun & Hpass).
  split; intros Hlen.
  - exists control, st'.
    inversion Hpass; subst; try (exfalso; lia);
      match goal with
      | H : effect _ _ _ _ _ _ |- _ => destruct H as (_ & _ & _ & _ & _ & Et)
      end; eauto.
  - inversion Hpass; subst; try (exfalso; lia). exact Hrun.
Qed.

(** C5 (amended). When the browser throws while the pass executes the
    decided step, the retry counter is incremented.  If it has reached
    [maxRetries], the pass appends one synthesized FAIL step that carries
    the message of the thrown value and returns a FAILED result whose error
    is that message.  Otherwise it appends nothing, pauses for a second,
    takes a recovery screenshot (whose failure is ignored) and goes back to
    the head of the loop, where a new decision is requested unless the
    steps have reached [MAX_STEPS]. *)
Theorem actuator_fault_handling (maxRetries : Z) (st st1 : State)
        (nextStep : BrowserStep) (thrown : Thrown) :
  length (steps st) < MAX_STEPS ->
  getNextStep env st = (inr nextStep, st1) ->
  terminalTool (tool nextStep) = false ->
  occurrences nextStep (recentActionHistory st) < MAX_DUPLICATES ->
  stagehand env (stagehandCalls st) (tool nextStep) (instruction nextStep)
  = ActThrows thrown ->
  exists st',
    retryCount st' = (retryCount st + 1)%Z /\
    if (maxRetries <=? retryCount st + 1)%Z then
      iteration env maxRetries st
      = (inr (Return (failedResult (errorMessage thrown) st')), st') /\
      steps st' =
        steps st ++
        [nextStep;
         failStep "Exceeded maximum retry attempts" (errorMessage thrown)] /\
      trace st' = trace st ++ [EvDecide (steps st); EvExec nextStep]
    else
      iteration env maxRetries st = (inr Continue, st') /\
      steps st' = steps st ++ [nextStep] /\
      trace st' =
        trace st ++
        [EvDecide (steps st); EvExec nextStep; EvSleep 1000;
         EvExec recoveryScreenshot] /\
      (length (steps st') < MAX_STEPS ->
       exists control st'' events,
         iteration env maxRetries st' = (inr control, st'') /\
         trace st'' = trace st' ++ EvDecide (steps st') :: events) /\
      (MAX_STEPS <= length (steps st') ->
       iteration env maxRetries st'
       = (inr (Return (failedResult maxStepsError st')), st')).
Proof.
  intros Hlen Hnext Hterm Hocc Hthrow.
  destruct (getNextStep_Decided st st1 nextStep Hnext) as (Hns & _).
  destruct (iteration_spec maxRetries st) as (control & st' & Hrun & Hpass).
  exists st'.
  inversion Hpass; subst; try (exfalso; lia); the_step Hns;
    try absurd_pass;
    match goal with
    | H : effect _ _ _ _ _ _ |- _ =>
        destruct H as (Es & Er & Eh & Ef & Eo & Et)
    end;
    (split; [exact Er |]).
  - destruct (Z.leb_spec maxRetries (retryCount st + 1)); [| lia].
    assert (error = thrown) by congruence. subst error.
    repeat split; assumption.
  - destruct (Z.leb_spec maxRetries (retryCount st + 1)); [lia |].
    assert (error = thrown) by congruence. subst error.
    split; [exact Hrun |]. split; [exact Es |]. split; [exact Et |].
    exact (head_of_loop maxRetries st').
Qed.

(** C10. A decided step that is neither DONE nor FAIL and is not a
    repetition is appended to the steps by the pass that decided it,
    whatever happens to its action afterwards.  When the browser throws on
    that action, the call is in the trace and the step stays in the steps
    of the result that the loop returns: the steps of a result can hold an
    action that was attempted and never succeeded. *)
Theorem attempted_step_is_recorded (maxRetries : Z) (st st1 : State)
        (nextStep : BrowserStep) :
  isSubtaskComplete st = false ->
  length (steps st) < MAX_STEPS ->
  getNextStep env st = (inr nextStep, st1) ->
  tool nextStep <> DONE -> tool nextStep <> FAIL ->
  occurrences nextStep (recentActionHistory st) < MAX_DUPLICATES ->
  (exists control st' pushed,
      iteration env maxRetries st = (inr control, st') /\
      steps st' = steps st ++ nextStep :: pushed) /\
  (forall thrown,
      tool nextStep <> CLOSE ->
      stagehand env (stagehandCalls st) (tool nextStep)
                (instruction nextStep) = ActThrows thrown ->
      exists result st' pushed,
        whileLoop env (S MAX_STEPS) maxRetries st
        = (inr (Returned result), st') /\
        In (EvExec nextStep) (trace st') /\
        res_steps result = steps st ++ nextStep :: pushed).
Proof.
  intros Hflag Hlen Hnext Hdone Hfail Hocc.
  destruct (getNextStep_Decided st st1 nextStep Hnext) as (Hns & _).
  destruct (iteration_spec maxRetries st) as (control & st' & Hrun & Hpass).
  split.
  - exists control, st'.
    inversion Hpass; subst; try (exfalso; lia); the_step Hns;
      try absurd_pass;
      match goal with
      | H : effect _ _ _ _ _ _ |- _ => destruct H as (Es & _)
      end; eauto.
  - intros thrown Hclose Hthrow.
    rewrite whileLoop_S, Hflag, Hrun.
    assert (Hterm : terminalTool (tool nextStep) = false)
      by (apply not_done_fail_close; assumption).
    inversion Hpass; subst; try (exfalso; lia); the_step Hns;
      try absurd_pass;
      match goal with
      | H : effect _ _ _ _ _ _ |- _ =>
          destruct H as (Es & Er & Eh & Ef & Eo & Et)
      end.
    + (* retries exhausted: the pass returns *)
      do 3 eexists. split; [reflexivity |]. split.
      * rewrite Et. apply in_or_app. right. right. left. reflexivity.
      * exact Es.
    + (* the loop goes on from [st'] *)
      pose proof
        (whileLoop_rule maxRetries
           (fun s => isSubtaskComplete s = false /\
                     In (EvExec nextStep) (trace s) /\
                     exists pushed, steps s = steps st ++ nextStep :: pushed)
           (fun r s => In (EvExec nextStep) (trace s) /\
                       exists pushed,
                         res_steps r = steps st ++ nextStep :: pushed))
        as Hrule.
      specialize (Hrule (fun s H => proj1 H)).
      assert (Hkeep : forall s control s',
                 (isSubtaskComplete s = false /\
                  In (EvExec nextStep) (trace s) /\
                  exists pushed, steps s = steps st ++ nextStep :: pushed) ->
                 iteration env maxRetries s = (inr control, s') ->
                 Pass env maxRetries s control s' ->
                 match control with
                 | Continue =>
                     isSubtaskComplete s' = false /\
                     In (EvExec nextStep) (trace s') /\
                     exists pushed,
                       steps s' = steps st ++ nextStep :: pushed
                 | Return r =>
                     In (EvExec nextStep) (trace s') /\
                     exists pushed,
                       res_steps r = steps st ++ nextStep :: pushed
                 end).
      { intros s c s' (Hf & Hin & pushed & Hs) _ Hp.
        destruct (Pass_frame maxRetries s s' c Hp) as (Hf' & events & Ht').
        destruct (Pass_steps maxRetries s s' c Hp) as ((more & Hs') & Hres).
        assert (Hin' : In (EvExec nextStep) (trace s'))
          by (rewrite Ht'; apply in_or_app; left; exact Hin).
        assert (Hs'' : steps s' = steps st ++ nextStep :: (pushed ++ more)).
        { rewrite Hs', Hs, <- app_assoc. reflexivity. }
        destruct c as [| r].
        - split; [congruence |]. split; [exact Hin' |]. eauto.
        - split; [exact Hin' |]. destruct Hres as (Hres & _).
          rewrite Hres. eauto. }
      specialize (Hrule Hkeep MAX_STEPS st').
      assert (Hinv : isSubtaskComplete st' = false /\
                     In (EvExec nextStep) (trace st') /\
                     exists pushed, steps st' = steps st ++ nextStep :: pushed).
      { split; [congruence |]. split.
        - rewrite Et. apply in_or_app. right. right. left. reflexivity.
        - exists []. exact Es. }
      assert (Hroom : length (steps st') <= MAX_STEPS)
        by (rewrite Es, length_app; cbn [length]; lia).
      specialize (Hrule Hinv Hroom).
      destruct (whileLoop env MAX_STEPS maxRetries st')
        as [[e | [r | |]] s]; try contradiction.
      * destruct Hrule as (Hin & pushed & Hres). eauto 6.
      * exfalso. rewrite Es, length_app in Hrule. cbn [length] in Hrule. lia.
Qed.

(** ** An oracle that repeats one action *)

Lemma pushHistory_length_eq (step : BrowserStep)
      (history : list (Tool * string)) :
  length history <= MAX_HISTORY ->
  length (pushHistory step history) = Nat.min (S (length history)) MAX_HISTORY.
Proof.
  intros H. unfold pushHistory.
  destruct (Nat.ltb_spec MAX_HISTORY
              (length (history ++ [(tool step, instruction step)])))
    as [Hlong | Hshort].
  - rewrite length_app in Hlong. cbn [length] in Hlong.
    destruct history as [| first rest]; cbn [app tl length] in *.
    + unfold MAX_HISTORY in *. lia.
    + rewrite length_app. cbn [length]. lia.
  - rewrite length_app in *. cbn [length] in *. lia.
Qed.

Lemma occurrences_all (step : BrowserStep) (history : list (Tool * string)) :
  Forall (fun action => action = (tool step, instruction step)) history ->
  occurrences step history = length history.
Proof.
  unfold occurrences. induction 1 as [| action rest Hhead _ IH].
  - reflexivity.
  - cbn [filter]. rewrite (proj2 (sameAction_true step action) Hhead).
    cbn [length]. rewrite IH. reflexivity.
Qed.


(** ** An oracle that never repeats itself *)

Lemma pushHistory_In (step : BrowserStep) (history : list (Tool * string))
      (action : Tool * string) :
  In action (pushHistory step history) ->
  In action history \/ action = (tool step, instruction step).
Proof.
  unfold pushHistory. intros Hin.
  assert (Hext : In action (history ++ [(tool step, instruction step)])).
  { destruct (Nat.ltb _ _); [| exact Hin].
    destruct (history ++ [(tool step, instruction step)]);
      [contradiction | right; exact Hin]. }
  apply in_app_or in Hext. destruct Hext as [H | [H | []]]; auto.
Qed.

(** C2. When the oracle always returns a step whose tool is none of DONE,
    FAIL and CLOSE, that carries no completion language and whose action
    differs from those of the other steps, and the browser never throws,
    [executeSubtask] returns the FAILED result with the error "Exceeded
    maximum number of steps (15)" whose steps are exactly the first 15
    steps of the oracle, whatever [maxRetries] is: the retry count is 0 and
    the oracle was asked 15 times, not once more.  At [MAX_STEPS] steps a
    pass returns that failure before anything else, whatever the retry
    counter and [maxRetries] are. *)
Theorem step_ceiling (previousExtraction : Payload) (maxRetries : Z)
        (objects : nat -> BrowserStep) :
  (forall n, generateObject env n = OracleObject (objects n)) ->
  (forall n, terminalTool (tool (objects n)) = false /\
             hasCompletionLanguage (objects n) = false) ->
  (forall i j, i < j < MAX_STEPS ->
               (tool (objects i), instruction (objects i))
               <> (tool (objects j), instruction (objects j))) ->
  (forall n method instr,
      exists value, stagehand env n method instr = ActReturns value) ->
  (exists st',
      executeSubtask env previousExtraction maxRetries
      = (Resolves ReturnInLoop
           {| res_status := Status.FAILED;
              res_steps := map objects (seq 0 MAX_STEPS);
              res_extraction := None;
              res_error := Some "Exceeded maximum number of steps (15)"%string;
              res_retryCount := 0%Z |},
         st') /\
      oracleCalls st' = MAX_STEPS) /\
  (forall st anyRetries,
      MAX_STEPS <= length (steps st) ->
      iteration env anyRetries st
      = (inr (Return
                (failedResult "Exceeded maximum number of steps (15)" st)),
         st)).
Proof.
  intros Horacle Hplain Hfresh Hcalm.
  split.
  2:{ intros st anyRetries Hlen.
      exact (proj2 (head_of_loop anyRetries st) Hlen). }
  destruct (executeSubtask_rule previousExtraction maxRetries
              (fun s =>
                 isSubtaskComplete s = false /\
                 steps s = map objects (seq 0 (oracleCalls s)) /\
                 retryCount s = 0%Z /\
                 oracleCalls s <= MAX_STEPS /\
                 forall action,
                   In action (recentActionHistory s) ->
                   exists i, i < oracleCalls s /\
                             action = (tool (objects i),
                                       instruction (objects i)))
              (fun r s' =>
                 r = {| res_status := Status.FAILED;
                        res_steps := map objects (seq 0 MAX_STEPS);
                        res_extraction := None;
                        res_error :=
                          Some "Exceeded maximum number of steps (15)"%string;
                        res_retryCount := 0%Z |} /\
                 oracleCalls s' = MAX_STEPS))
    as (result & st' & Hrun & Hres & Hcalls).
  - destruct (loopEntry_fields previousExtraction)
      as (Hs & Hr & Hh & Hf & Ho & _).
    rewrite Hs, Hr, Hh, Hf, Ho. cbn.
    repeat split; try lia.
  - intros s H. exact (proj1 H).
  - intros s control s' (Hflag & Hsteps & Hretry & Hcount & Hhist) _ Hpass.
    assert (Hlen : length (steps s) = oracleCalls s)
      by (rewrite Hsteps, length_map, length_seq; reflexivity).
    assert (Hsame : forall step, Decided env s step ->
                                 step = objects (oracleCalls s)).
    { intros step [e He | o Ho Hd Hl | o Ho Hv];
        rewrite Horacle in *; try discriminate.
      - inversion Ho; subst o.
        rewrite (proj2 (Hplain (oracleCalls s))) in Hl. discriminate.
      - inversion Ho. reflexivity. }
    assert (Hocc : oracleCalls s < MAX_STEPS ->
                   occurrences (objects (oracleCalls s))
                               (recentActionHistory s) = 0).
    { intros Hroom. apply occurrences_absent. intros Hin.
      destruct (Hhist _ Hin) as (i & Hi & Heq).
      apply (Hfresh i (oracleCalls s)); [lia | congruence]. }
    inversion Hpass; subst;
      try match goal with
        | H : effect _ _ _ _ _ _ |- _ =>
            destruct H as (Es & Er & Eh & Ef & Eo & Et)
        end;
      try match goal with
        | H : Decided env s ?x |- _ =>
            pose proof (Hsame x H); subst x;
            pose proof (Hplain (oracleCalls s)) as (Hterm & Hlang)
        end;
      try absurd_pass.
    + (* the ceiling *)
      assert (Hfull : oracleCalls s' = MAX_STEPS) by lia.
      split; [| exact Hfull].
      unfold failedResult.
      rewrite Hsteps, Hretry, Hfull, maxStepsError_text. reflexivity.
    + (* the action returned *)
      rewrite Es, Er, Eh, Ef, Eo.
      repeat split; try lia; try assumption.
      * rewrite seq_S, map_app, <- Hsteps. reflexivity.
      * intros action Hin. apply pushHistory_In in Hin.
        destruct Hin as [Hin | Hin].
        -- destruct (Hhist _ Hin) as (i & Hi & Heq). exists i.
           split; [lia | exact Heq].
        -- exists (oracleCalls s). split; [lia | exact Hin].
    + (* the browser never throws *)
      destruct (Hcalm (stagehandCalls s)
                  (tool (objects (oracleCalls s)))
                  (instruction (objects (oracleCalls s)))) as (v & Hv).
      congruence.
    + destruct (Hcalm (stagehandCalls s)
                  (tool (objects (oracleCalls s)))
                  (instruction (objects (oracleCalls s)))) as (v & Hv).
      congruence.
  - subst result. eauto.
Qed.

(** ** The budget of a subtask *)

Lemma execs_app (tr1 tr2 : list Event) :
  execs (tr1 ++ tr2) = execs tr1 + execs tr2.
Proof. unfold execs. rewrite filter_app, length_app. reflexivity. Qed.

Lemma decisions_app (tr1 tr2 : list Event) :
  decisions (tr1 ++ tr2) = decisions tr1 ++ decisions tr2.
Proof. unfold decisions. apply flat_map_app. Qed.

Lemma followUp_events (step : BrowserStep) :
  execs (followUp step) <= 2 /\ decisions (followUp step) = [] /\
  sleeps (followUp step) = 0.
Proof.
  unfold followUp.
  destruct (_ || _), (negb _); cbn; repeat split; lia.
Qed.

Lemma prefixes_snoc (l pushed : list BrowserStep) :
  map (fun n => firstn n (l ++ pushed)) (seq 0 (S (length l)))
  = map (fun n => firstn n l) (seq 0 (length l)) ++ [l].
Proof.
  rewrite seq_S, map_app. cbn [map Nat.add]. f_equal.
  - apply map_ext_in. intros n Hn. apply in_seq in Hn.
    rewrite firstn_app.
    replace (n - length l) with 0 by lia.
    cbn. apply app_nil_r.
  - rewrite firstn_app, firstn_all, Nat.sub_diag. cbn.
    rewrite app_nil_r. reflexivity.
Qed.

Lemma loopEntry_ledger (previousExtraction : Payload) :
  Ledger (loopEntry env previousExtraction).
Proof.
  destruct (loopEntry_fields previousExtraction)
    as (Hs & Hr & Hh & Hf & Ho & Ht).
  unfold Ledger. rewrite Hs, Hh, Ho, Ht.
  cbn. repeat split; auto.
Qed.

(** A pass that continues pushes one step, makes one request with the
    steps it found and calls [executeStep] at most three times. *)
Lemma Pass_continue (maxRetries : Z) (st st' : State) :
  Pass env maxRetries st Continue st' ->
  length (steps st) < MAX_STEPS /\
  exists step events,
    steps st' = steps st ++ [step] /\
    terminalTool (tool step) = false /\
    (exists nextStep,
        recentActionHistory st'
        = pushHistory nextStep (recentActionHistory st)) /\
    oracleCalls st' = S (oracleCalls st) /\
    trace st' = trace st ++ EvDecide (steps st) :: events /\
    execs events <= 3 /\ decisions events = [].
Proof.
  intros Hpass.
  inversion Hpass; subst;
    match goal with
    | H : effect _ _ _ _ _ _ |- _ =>
        destruct H as (Es & Er & Eh & Ef & Eo & Et)
    end;
    (split; [assumption |]).
  - exists waitStep. eexists. repeat split; eauto.
  - exists nextStep. eexists. repeat split; eauto.
    + cbn [execs filter isExec length].
      change (S (execs (followUp nextStep)) <= 3).
      pose proof (followUp_events nextStep). lia.
    + cbn [decisions flat_map app]. apply followUp_events.
  - exists nextStep. eexists. repeat split; eauto; cbn; lia.
Qed.

Lemma Pass_ledger (maxRetries : Z) (st st' : State) :
  Ledger st ->
  Pass env maxRetries st Continue st' ->
  Ledger st'.
Proof.
  intros (Ho & Hh & Hs & He & Hd) Hpass.
  destruct (Pass_continue maxRetries st st' Hpass)
    as (Hroom & step & events & Es & Hterm & (ns & Eh) & Eo & Et & Hex & Hdec).
  unfold Ledger. rewrite Es, Eh, Eo, Et, length_app. cbn [length].
  repeat split.
  - lia.
  - rewrite pushHistory_length_eq by (rewrite Hh; lia).
    rewrite Hh. unfold MAX_HISTORY. lia.
  - apply Forall_app. split; [exact Hs | constructor; [exact Hterm | constructor]].
  - rewrite execs_app. cbn [execs filter isExec].
    change (execs (trace st) + execs events
            <= 1 + 3 * (length (steps st) + 1)). lia.
  - rewrite decisions_app. cbn [decisions flat_map].
    change (decisions (trace st) ++ [steps st] ++ decisions events
            = map (fun n => firstn n (steps st ++ [step]))
                  (seq 0 (length (steps st) + 1))).
    rewrite Hdec, Hd, Nat.add_1_r, prefixes_snoc. reflexivity.
Qed.

(** The pass that returns the result of [executeSubtask] starts in a state
    that the loop reaches and whose counters are in order. *)
Lemma executeSubtask_last_pass (previousExtraction : Payload)
      (maxRetries : Z) :
  exists st result st',
    executeSubtask env previousExtraction maxRetries
    = (Resolves ReturnInLoop result, st') /\
    Reachable env previousExtraction maxRetries st /\
    Ledger st /\
    iteration env maxRetries st = (inr (Return result), st') /\
    Pass env maxRetries st (Return result) st'.
Proof.
  destruct (executeSubtask_rule previousExtraction maxRetries
              (fun st => Reachable env previousExtraction maxRetries st
                         /\ Ledger st)
              (fun result st' =>
                 exists st,
                   Reachable env previousExtraction maxRetries st /\
                   Ledger st /\
                   iteration env maxRetries st = (inr (Return result), st') /\
                   Pass env maxRetries st (Return result) st'))
    as (result & st' & Hrun & st & H).
  - split; [constructor | apply loopEntry_ledger].
  - intros st [Hreach _].
    apply (Reachable_invariant previousExtraction maxRetries st Hreach).
  - intros st control st' [Hreach Hledger] Hrun Hpass.
    destruct control as [| result].
    + split.
      * eapply Reachable_pass; eauto.
        apply (Reachable_invariant previousExtraction maxRetries st Hreach).
      * eapply Pass_ledger; eauto.
    + exists st. auto.
  - exists st, result, st'. tauto.
Qed.

(** The pass that returns either finds the steps at the ceiling and changes
    nothing, or makes one request, at most one [executeStep] call and no
    pause, and pushes at most two steps. *)
Lemma Pass_return (maxRetries : Z) (st st' : State) (result : WorkerResult) :
  Pass env maxRetries st (Return result) st' ->
  res_steps result = steps st' /\
  res_retryCount result = retryCount st' /\
  ((MAX_STEPS <= length (steps st) /\ st' = st) \/
   (length (steps st) < MAX_STEPS /\
    exists pushed events,
      steps st' = steps st ++ pushed /\ length pushed <= 2 /\
      oracleCalls st' = S (oracleCalls st) /\
      trace st' = trace st ++ EvDecide (steps st) :: events /\
      execs events <= 1 /\ decisions events = [])).
Proof.
  intros Hpass.
  inversion Hpass; subst;
    try match goal with
      | H : effect _ _ _ _ _ _ |- _ =>
          destruct H as (Es & Er & Eh & Ef & Eo & Et)
      end;
    (split; [reflexivity |]); (split; [reflexivity |]);
    [left; split; [assumption | reflexivity] | right ..];
    (split; [assumption |]);
    do 2 eexists; repeat split; eauto; cbn; lia.
Qed.

Lemma oracle_budget_run (previousExtraction : Payload) (maxRetries : Z) :
  exists result st',
    executeSubtask env previousExtraction maxRetries
    = (Resolves ReturnInLoop result, st') /\
    oracleCalls st' <= MAX_STEPS /\
    oracleCalls st' <= S (length (res_steps result)) /\
    decisions (trace st')
    = map (fun n => firstn n (res_steps result)) (seq 0 (oracleCalls st')) /\
    execs (trace st') <= 1 + 3 * MAX_STEPS /\
    length (res_steps result) <= S MAX_STEPS.
Proof.
  destruct (executeSubtask_last_pass previousExtraction maxRetries)
    as (st & result & st' & Hrun & Hreach & Hledger & _ & Hpass).
  pose proof (Reachable_invariant previousExtraction maxRetries st Hreach)
    as (_ & Hlen & _).
  destruct Hledger as (Ho & Hh & Hs & He & Hd).
  exists result, st'. split; [exact Hrun |].
  destruct (Pass_return maxRetries st st' result Hpass)
    as (-> & _ & [[Hmax ->] | (Hroom & pushed & events & Es & Hp & Eo & Et
                               & Hex & Hdec)]).
  - rewrite Ho. repeat split; try lia. exact Hd.
  - rewrite Eo, Et, Es, Ho, execs_app, decisions_app, length_app.
    change (execs (EvDecide (steps st) :: events)) with (execs events).
    change (decisions (EvDecide (steps st) :: events))
      with (steps st :: decisions events).
    rewrite Hdec, Hd, prefixes_snoc.
    unfold MAX_STEPS in *. repeat split; lia.
Qed.

(** ** The shape of the steps of a result *)

Lemma Forall_removelast {A} (P : A -> Prop) (l : list A) :
  Forall P l -> Forall P (removelast l).
Proof.
  induction 1 as [| x l Hx Hl IH]; [constructor |].
  cbn. destruct l; [constructor | constructor; assumption].
Qed.

Lemma terminal_closing (t : Tool) :
  terminalTool t = false -> closingTool t = false.
Proof. destruct t; cbn; congruence. Qed.

(** Where an element of [base ++ rest] lies. *)
Lemma split_at_suffix {A} (base rest front back : list A) (x : A) :
  base ++ rest = front ++ x :: back ->
  In x base \/ exists pre, rest = pre ++ x :: back.
Proof.
  intros H. apply app_eq_app in H.
  destruct H as (l & [[Hb Hr] | [Hf Hr]]).
  - destruct l as [| y l].
    + right. exists []. cbn in Hr. symmetry. exact Hr.
    + left. cbn in Hr. inversion Hr; subst.
      apply in_or_app. right. left. reflexivity.
  - right. exists l. exact Hr.
Qed.

Lemma last_of_open (base front : list BrowserStep) (step : BrowserStep) :
  Forall (fun s => terminalTool (tool s) = false) base ->
  base = front ++ [step] -> terminalTool (tool step) = false.
Proof.
  intros H ->. apply Forall_app in H. destruct H as [_ H].
  inversion H. assumption.
Qed.

Lemma result_shape_run (previousExtraction : Payload) (maxRetries : Z) :
  exists result st',
    executeSubtask env previousExtraction maxRetries
    = (Resolves ReturnInLoop result, st') /\
    length (res_steps result) <= S MAX_STEPS /\
    Forall (fun step => closingTool (tool step) = false)
           (removelast (res_steps result)) /\
    (res_status result = Status.DONE <->
     exists front step,
       res_steps result = front ++ [step] /\ tool step = DONE) /\
    (forall front step back,
        res_steps result = front ++ step :: back ->
        tool step = CLOSE ->
        back = [doneStep "Based on CLOSE request from agent"]).
Proof.
  destruct (oracle_budget_run previousExtraction maxRetries)
    as (result0 & st0 & Hrun0 & _ & _ & _ & _ & Hlen).
  destruct (executeSubtask_last_pass previousExtraction maxRetries)
    as (st & result & st' & Hrun & Hreach & Hledger & _ & Hpass).
  rewrite Hrun in Hrun0. inversion Hrun0; subst result0 st0. clear Hrun0.
  destruct Hledger as (_ & _ & Hs & _ & _).
  exists result, st'. split; [exact Hrun |]. split; [exact Hlen |].
  assert (Hopen : Forall (fun step => closingTool (tool step) = false)
                         (steps st)).
  { eapply Forall_impl; [| exact Hs]. intros s. apply terminal_closing. }
  assert (Hin : forall step, In step (steps st) ->
                             terminalTool (tool step) = false).
  { apply Forall_forall. exact Hs. }
  inversion Hpass; subst;
    try match goal with
      | H : effect _ _ _ _ _ _ |- _ =>
          destruct H as (Es & Er & Eh & Ef & Eo & Et)
      end;
    cbn [doneResult failedResult res_steps res_status];
    rewrite ?Es.
  - (* ceiling *)
    split; [apply Forall_removelast; exact Hopen |]. split.
    + split; [discriminate |]. intros (front & step & E & Ht).
      pose proof (last_of_open _ _ _ Hs E) as H.
      rewrite Ht in H. discriminate.
    + intros front step back E Ht.
      assert (H : In step (steps st'))
        by (rewrite E; apply in_or_app; right; left; reflexivity).
      apply Hin in H. rewrite Ht in H. discriminate.
  - (* DONE *)
    rewrite removelast_last.
    split; [exact Hopen |]. split.
    + split; [| reflexivity]. intros _. eauto.
    + intros front step back E Ht.
      apply split_at_suffix in E. destruct E as [E | (pre & E)].
      * apply Hin in E. rewrite Ht in E. discriminate.
      * destruct pre as [| a [| b pre]]; inversion E; subst. congruence.
  - (* FAIL *)
    rewrite removelast_last.
    split; [exact Hopen |]. split.
    + split; [discriminate |]. intros (front & step & E & Ht).
      apply app_inj_tail in E. destruct E as [_ <-]. congruence.
    + intros front step back E Ht.
      apply split_at_suffix in E. destruct E as [E | (pre & E)].
      * apply Hin in E. rewrite Ht in E. discriminate.
      * destruct pre as [| a [| b pre]]; inversion E; subst. congruence.
  - (* repetition, retries exhausted *)
    rewrite app_nil_r.
    split; [apply Forall_removelast; exact Hopen |]. split.
    + split; [discriminate |]. intros (front & step & E & Ht).
      pose proof (last_of_open _ _ _ Hs E) as H.
      rewrite Ht in H. discriminate.
    + intros front step back E Ht.
      assert (H : In step (steps st))
        by (rewrite E; apply in_or_app; right; left; reflexivity).
      apply Hin in H. rewrite Ht in H. discriminate.
  - (* CLOSE *)
    change [nextStep; doneStep "Based on CLOSE request from agent"]
      with ([nextStep] ++ [doneStep "Based on CLOSE request from agent"]).
    rewrite app_assoc, removelast_last.
    split.
    { apply Forall_app. split; [exact Hopen |].
      constructor; [| constructor].
      match goal with H : tool nextStep = CLOSE |- _ => rewrite H end.
      reflexivity. }
    split.
    + split; [| reflexivity]. intros _. do 2 eexists. split; reflexivity.
    + intros front step back E Ht. rewrite <- app_assoc in E.
      apply split_at_suffix in E. destruct E as [E | (pre & E)].
      * apply Hin in E. rewrite Ht in E. discriminate.
      * destruct pre as [| a [| b [| c pre]]]; inversion E; subst;
          [reflexivity | discriminate].
  - (* the action threw, retries exhausted *)
    match goal with
    | |- context [[nextStep; ?f]] =>
        change [nextStep; f] with ([nextStep] ++ [f])
    end.
    rewrite app_assoc, removelast_last.
    split.
    { apply Forall_app. split; [exact Hopen |].
      constructor; [| constructor].
      apply terminal_closing. assumption. }
    split.
    + split; [discriminate |]. intros (front & step & E & Ht).
      apply app_inj_tail in E. destruct E as [_ <-]. discriminate.
    + intros front step back E Ht. rewrite <- app_assoc in E.
      apply split_at_suffix in E. destruct E as [E | (pre & E)].
      * apply Hin in E. rewrite Ht in E. discriminate.
      * destruct pre as [| a [| b [| c pre]]]; inversion E; subst;
          [| discriminate].
        match goal with
        | H : terminalTool (tool step) = false |- _ =>
            rewrite Ht in H; discriminate
        end.
Qed.

(** ** The retries of a result *)

(** The retry count of a result is never negative and never above
    [maxRetries], or above 1 when [maxRetries] is smaller.  Every counted
    retry was followed by a pause of the loop, except the one that ends
    the subtask: a result either reports as many retries as the loop
    paused, fewer than [maxRetries] unless there were none, or it reports
    one more, and then it is FAILED with [maxRetries] reached. *)
Theorem retry_accounting (previousExtraction : Payload) (maxRetries : Z) :
  exists result st',
    executeSubtask env previousExtraction maxRetries
    = (Resolves ReturnInLoop result, st') /\
    (0 <= res_retryCount result <= Z.max 1 maxRetries)%Z /\
    ((res_retryCount result = Z.of_nat (sleeps (trace st')) /\
      (res_retryCount result = 0 \/ res_retryCount result < maxRetries)%Z) \/
     (res_retryCount result = (Z.of_nat (sleeps (trace st')) + 1)%Z /\
      (maxRetries <= res_retryCount result)%Z /\
      res_status result = Status.FAILED)).
Proof.
  destruct (executeSubtask_last_pass previousExtraction maxRetries)
    as (st & result & st' & Hrun & Hreach & _ & _ & Hpass).
  pose proof (Reachable_invariant previousExtraction maxRetries st Hreach)
    as Hinv.
  destruct (Pass_invariant maxRetries st st' (Return result) Hinv Hpass)
    as [Hsleeps _].
  destruct Hinv as (_ & _ & _ & _ & _ & Hpaused & Hbelow).
  exists result, st'. split; [exact Hrun |].
  rewrite Hsleeps.
  inversion Hpass; subst;
    try match goal with
      | H : effect _ _ _ _ _ _ |- _ =>
          destruct H as (Es & Er & Eh & Ef & Eo & Et)
      end;
    cbn [doneResult failedResult res_retryCount res_status];
    rewrite ?Er;
    (split; [lia |]);
    first [ left; lia
          | right; split; [lia | split; [lia | reflexivity]] ].
Qed.

(** ** The warning of the prompt *)

Lemma sliceLast_app {A} (front recent : list A) :
  sliceLast (length recent) (front ++ recent) = recent.
Proof.
  unfold sliceLast. rewrite length_app.
  replace (length front + length recent - length recent)
    with (length front) by lia.
  rewrite skipn_app, skipn_all, Nat.sub_diag. reflexivity.
Qed.

Lemma sliceLast_split {A} (n : nat) (l : list A) :
  n <= length l ->
  exists front, l = front ++ sliceLast n l /\ length (sliceLast n l) = n.
Proof.
  intros Hn. exists (firstn (length l - n) l). unfold sliceLast.
  rewrite firstn_skipn, length_skipn. split; [reflexivity | lia].
Qed.

Lemma mentionsStuck_spec (step : BrowserStep) :
  mentionsStuck step = true <->
  exists phrase,
    In phrase stuckPhrases /\
    (includes (toLowerCase (text step)) phrase = true \/
     includes (toLowerCase (reasoning step)) phrase = true).
Proof.
  unfold mentionsStuck. rewrite existsb_exists.
  split; intros (phrase & Hin & H); exists phrase; (split; [exact Hin |]).
  - apply orb_true_iff. exact H.
  - apply orb_true_iff. exact H.
Qed.

Lemma distinctCount_three (x y z : string) :
  (distinctCount [x; y; z] <? 3)%nat = true <->
  x = y \/ y = z \/ x = z.
Proof.
  unfold distinctCount. cbn [nodup in_dec list_rec list_rect].
  rewrite Nat.ltb_lt.
  destruct (string_dec y x) as [Hyx | Hyx],
           (string_dec z x) as [Hzx | Hzx],
           (string_dec z y) as [Hzy | Hzy];
    cbn; split; intros H; try lia; subst; auto; try congruence.
  all: destruct H as [H | [H | H]]; congruence.
Qed.

Lemma hasPossibleLoop_last_three (front : list BrowserStep)
      (a b c : BrowserStep) :
  hasPossibleLoop (front ++ [a; b; c]) = true <->
  (tool a = tool b /\ tool b = tool c /\
   (instruction a = instruction b \/ instruction b = instruction c \/
    instruction a = instruction c)) \/
  exists step, In step [a; b; c] /\ mentionsStuck step = true.
Proof.
  unfold hasPossibleLoop.
  assert (Hlen : (length (front ++ [a; b; c]) <? 3)%nat = false).
  { apply Nat.ltb_ge. rewrite length_app. cbn. lia. }
  rewrite Hlen.
  rewrite (sliceLast_app front [a; b; c] : sliceLast 3 _ = _).
  cbn [map length forallb].
  rewrite orb_true_iff, andb_true_iff, distinctCount_three, existsb_exists.
  assert (Htools :
            tool_eqb (tool a) (tool a)
            && (tool_eqb (tool b) (tool a)
                && (tool_eqb (tool c) (tool a) && true)) = true <->
            tool a = tool b /\ tool b = tool c).
  { destruct (tool_eqb_spec (tool a) (tool a)) as [_ | H]; [| congruence].
    destruct (tool_eqb_spec (tool b) (tool a)) as [Hba | Hba],
             (tool_eqb_spec (tool c) (tool a)) as [Hca | Hca];
      cbn; split; intros H; try discriminate; try (split; congruence);
      destruct H; congruence. }
  rewrite Htools. tauto.
Qed.

(** [hasPossibleLoop] holds exactly when there are three steps or more
    and the last three either share their tool and two of them share
    their instruction, or one of them has a stuck phrase in its lowercased
    text or reasoning; the steps before the last three play no part. *)
Theorem hasPossibleLoop_spec (previousSteps : list BrowserStep) :
  hasPossibleLoop previousSteps = true <->
  exists front a b c,
    previousSteps = front ++ [a; b; c] /\
    ((tool a = tool b /\ tool b = tool c /\
      (instruction a = instruction b \/ instruction b = instruction c \/
       instruction a = instruction c)) \/
     exists step phrase,
       In step [a; b; c] /\ In phrase stuckPhrases /\
       (includes (toLowerCase (text step)) phrase = true \/
        includes (toLowerCase (reasoning step)) phrase = true)).
Proof.
  split.
  - intros H.
    assert (Hlen : 3 <= length previousSteps).
    { unfold hasPossibleLoop in H.
      destruct (Nat.ltb_spec (length previousSteps) 3); [discriminate | lia]. }
    destruct (sliceLast_split 3 previousSteps Hlen) as (front & E & Hthree).
    destruct (sliceLast 3 previousSteps) as [| a [| b [| c [| d rest]]]];
      try discriminate.
    exists front, a, b, c. split; [exact E |].
    rewrite E in H. apply hasPossibleLoop_last_three in H.
    destruct H as [H | (step & Hin & Hstuck)]; [left; exact H | right].
    apply mentionsStuck_spec in Hstuck.
    destruct Hstuck as (phrase & Hp & Hinc). eauto.
  - intros (front & a & b & c & -> & H).
    apply hasPossibleLoop_last_three.
    destruct H as [H | (step & phrase & Hin & Hp & Hinc)];
      [left; exact H | right].
    exists step. split; [exact Hin |].
    apply mentionsStuck_spec. eauto.
Qed.

Lemma Reachable_ledger (previousExtraction : Payload) (maxRetries : Z)
      (st : State) :
  Reachable env previousExtraction maxRetries st -> Ledger st.
Proof.
  induction 1 as [| st st' Hreach IH Hloop Hrun].
  - apply loopEntry_ledger.
  - apply (Pass_ledger maxRetries st st' IH).
    apply iteration_pass. exact Hrun.
Qed.

Lemma occurrences_le (step : BrowserStep) (history : list (Tool * string)) :
  occurrences step history <= length history.
Proof. unfold occurrences. apply filter_length_le. Qed.

(** A pause of the loop raises the warning.  When a decided action
    already occurs twice in the history and retries are left, the pass
    appends the synthetic WAIT step and continues; there are then three
    steps or more and [hasPossibleLoop] holds of them, as it does of any
    steps that end with the WAIT step, or have it second or third from the
    end.  The next pass, if the steps are below the ceiling, makes its
    request with exactly these steps. *)
Theorem pause_raises_warning (previousExtraction : Payload)
        (maxRetries : Z) (st st1 : State) (nextStep : BrowserStep) :
  Reachable env previousExtraction maxRetries st ->
  length (steps st) < MAX_STEPS ->
  getNextStep env st = (inr nextStep, st1) ->
  MAX_DUPLICATES <= occurrences nextStep (recentActionHistory st) ->
  (retryCount st + 1 < maxRetries)%Z ->
  exists st',
    iteration env maxRetries st = (inr Continue, st') /\
    steps st' = steps st ++ [waitStep] /\
    3 <= length (steps st') /\
    hasPossibleLoop (steps st') = true /\
    (forall later,
        length later <= 2 ->
        hasPossibleLoop (steps st' ++ later) = true) /\
    (length (steps st') < MAX_STEPS ->
     exists control st'' events,
       iteration env maxRetries st' = (inr control, st'') /\
       trace st'' = trace st' ++ EvDecide (steps st') :: events).
Proof.
  intros Hreach Hroom Hnext Hrep Hretry.
  pose proof (Reachable_invariant previousExtraction maxRetries st Hreach)
    as (_ & _ & _ & Hhist & _).
  pose proof (Reachable_ledger previousExtraction maxRetries st Hreach)
    as (_ & Hh & _).
  destruct (getNextStep_Decided st st1 nextStep Hnext) as [Hd _].
  destruct (iteration_spec maxRetries st) as (control & st' & Hrun & Hpass).
  assert (Hterm : terminalTool (tool nextStep) = false).
  { destruct (terminalTool (tool nextStep)) eqn:Hterm; [| reflexivity].
    rewrite (occurrences_terminal nextStep _ Hhist Hterm) in Hrep.
    unfold MAX_DUPLICATES in Hrep. lia. }
  assert (Htwo : 2 <= length (steps st)).
  { pose proof (occurrences_le nextStep (recentActionHistory st)).
    unfold MAX_DUPLICATES, MAX_HISTORY in *. lia. }
  assert (Hwait : mentionsStuck waitStep = true) by reflexivity.
  inversion Hpass; subst;
    try match goal with
      | H : Decided env st ?x |- _ =>
          pose proof (Decided_fun st _ _ Hd H); subst x
      end;
    try (unfold MAX_STEPS, MAX_DUPLICATES in *; lia);
    try (rewrite Hterm in *; discriminate);
    try match goal with
      | H : tool nextStep = _ |- _ =>
          rewrite H in Hterm; discriminate
      end.
  match goal with
  | H : effect _ _ _ _ _ _ |- _ => destruct H as (Es & _)
  end.
  exists st'. split; [exact Hrun |]. split; [exact Es |].
  assert (Hlater : forall later,
             length later <= 2 ->
             hasPossibleLoop (steps st' ++ later) = true).
  { intros later Hl. rewrite Es.
    destruct (sliceLast_split 2 (steps st) Htwo) as (front & E & Hlen2).
    destruct (sliceLast 2 (steps st)) as [| x [| y [| z rest]]];
      try discriminate.
    rewrite E, <- !app_assoc. cbn [app].
    destruct later as [| p [| q [| r later]]]; [| | | cbn in Hl; lia].
    - apply (hasPossibleLoop_last_three front x y waitStep).
      right. exists waitStep. cbn. auto.
    - change (front ++ [x; y; waitStep; p])
        with (front ++ [x] ++ [y; waitStep; p]).
      rewrite app_assoc.
      apply (hasPossibleLoop_last_three (front ++ [x]) y waitStep p).
      right. exists waitStep. cbn. auto.
    - change (front ++ [x; y; waitStep; p; q])
        with (front ++ [x; y] ++ [waitStep; p; q]).
      rewrite app_assoc.
      apply (hasPossibleLoop_last_three (front ++ [x; y]) waitStep p q).
      right. exists waitStep. cbn. auto. }
  split; [rewrite Es, length_app; cbn; lia |].
  split; [rewrite <- (app_nil_r (steps st')); apply Hlater; cbn; lia |].
  split; [exact Hlater |].
  exact (proj1 (head_of_loop maxRetries st')).
Qed.

(** ** What getNextStep returns *)

(** [getNextStep] never throws, whatever the language model does: it
    returns a step and changes nothing but the count and the trace of the
    requests.  When the request throws, the step is the fallback
    SCREENSHOT step.  A step that it returns carries completion language
    only with the DONE tool, so the test for completion language that
    [executeSubtask] makes on a step with another tool never succeeds. *)
Theorem getNextStep_never_throws (st : State) :
  exists nextStep,
    getNextStep env st = (inr nextStep, afterDecide st) /\
    (hasCompletionLanguage nextStep = true -> tool nextStep = DONE) /\
    (forall error,
        generateObject env (oracleCalls st) = OracleThrows error ->
        nextStep = fallbackStep) /\
    (forall object,
        generateObject env (oracleCalls st) = OracleObject object ->
        nextStep = object \/
        (nextStep = convertedDoneStep object /\ tool object <> DONE /\
         hasCompletionLanguage object = true)) /\
    steps (afterDecide st) = steps st /\
    retryCount (afterDecide st) = retryCount st /\
    recentActionHistory (afterDecide st) = recentActionHistory st /\
    extraction (afterDecide st) = extraction st /\
    stagehandCalls (afterDecide st) = stagehandCalls st.
Proof.
  destruct (getNextStep_decided st) as (nextStep & Hrun & Hd).
  exists nextStep. split; [exact Hrun |].
  split.
  { intros Hlang.
    destruct (tool_eqb_spec (tool nextStep) DONE) as [H | H]; [exact H |].
    rewrite (Decided_no_language st nextStep Hd H) in Hlang.
    discriminate. }
  split.
  { intros error He.
    apply (Decided_fun st nextStep fallbackStep Hd).
    eapply Decided_fallback. exact He. }
  split.
  { intros object Ho.
    inversion Hd as [e He | o Ho' Hdone Hlang | o Ho' Hv]; subst;
      rewrite Ho in *; try discriminate.
    - inversion Ho'; subst o. right. auto.
    - inversion Ho'; subst. left. reflexivity. }
  repeat split.
Qed.

(** ** Repetitions that the history does not see *)

Lemma skipn_S_tl {A} (n : nat) (l : list A) :
  skipn (S n) l = tl (skipn n l).
Proof.
  revert l. induction n as [| n IH]; intros [| x l]; try reflexivity.
  change (skipn (S (S n)) (x :: l)) with (skipn (S n) l).
  change (skipn (S n) (x :: l)) with (skipn n l). apply IH.
Qed.

(** The history holds the last [MAX_HISTORY] actions it was given. *)
Lemma pushHistory_sliceLast (step : BrowserStep)
      (actions : list (Tool * string)) :
  pushHistory step (sliceLast MAX_HISTORY actions)
  = sliceLast MAX_HISTORY (actions ++ [(tool step, instruction step)]).
Proof.
  unfold pushHistory, sliceLast.
  rewrite !length_app, length_skipn. cbn [length].
  destruct (Nat.ltb_spec MAX_HISTORY
              (length actions - (length actions - MAX_HISTORY) + 1))
    as [Hfull | Hroom].
  - replace (length actions + 1 - MAX_HISTORY)
      with (S (length actions - MAX_HISTORY))
      by (unfold MAX_HISTORY in *; lia).
    rewrite skipn_S_tl, skipn_app.
    replace (length actions - MAX_HISTORY - length actions) with 0 by lia.
    reflexivity.
  - replace (length actions + 1 - MAX_HISTORY) with 0
      by (unfold MAX_HISTORY in *; lia).
    replace (length actions - MAX_HISTORY) with 0
      by (unfold MAX_HISTORY in *; lia).
    reflexivity.
Qed.

(** Two entries of a window that pass a test. *)
Lemma two_hits {A} (p : A -> bool) (f : nat -> A) (k start : nat) :
  2 <= length (filter p (map f (seq start k))) ->
  exists i j,
    start <= i /\ i < j /\ j < start + k /\
    p (f i) = true /\ p (f j) = true.
Proof.
  revert start. induction k as [| k IH]; intros start H.
  - cbn in H. lia.
  - cbn [seq map filter] in H.
    destruct (p (f start)) eqn:Hp.
    + cbn [length] in H.
      destruct (filter p (map f (seq (S start) k))) as [| y rest] eqn:E;
        [cbn in H; lia |].
      assert (Hy : In y (filter p (map f (seq (S start) k))))
        by (rewrite E; left; reflexivity).
      apply filter_In in Hy. destruct Hy as [Hy Hpy].
      apply in_map_iff in Hy. destruct Hy as (j & <- & Hj).
      apply in_seq in Hj.
      exists start, j. repeat split; try lia; assumption.
    + destruct (IH (S start) H) as (i & j & Hi & Hij & Hj & Hpi & Hpj).
      exists i, j. repeat split; try lia; assumption.
Qed.

Lemma sliceLast_scripted {A} (g : nat -> A) (n count : nat) :
  sliceLast n (map g (seq 0 count))
  = map g (seq (count - n) (count - (count - n))).
Proof.
  unfold sliceLast. rewrite length_map, length_seq, skipn_map, skipn_seq.
  reflexivity.
Qed.

(** An action that comes back is seen by the history only when it comes
    back soon.  When the oracle never finishes, the browser never throws
    and any two equal actions among the first 15 lie three requests or more
    apart (as in a cycle through three actions), no repetition is ever
    detected: no retry is counted, the loop never pauses, all 15 steps are
    executed and the result is the failure of the step ceiling.  The
    history then holds the last five actions. *)
Theorem spaced_repeats_undetected (previousExtraction : Payload)
        (maxRetries : Z) (objects : nat -> BrowserStep) :
  (forall n, generateObject env n = OracleObject (objects n)) ->
  (forall n, terminalTool (tool (objects n)) = false /\
             hasCompletionLanguage (objects n) = false) ->
  (forall i j, i < j < MAX_STEPS -> j < i + 3 ->
               (tool (objects i), instruction (objects i))
               <> (tool (objects j), instruction (objects j))) ->
  (forall n method instr,
      exists value, stagehand env n method instr = ActReturns value) ->
  exists st',
    executeSubtask env previousExtraction maxRetries
    = (Resolves ReturnInLoop
         {| res_status := Status.FAILED;
            res_steps := map objects (seq 0 MAX_STEPS);
            res_extraction := None;
            res_error := Some "Exceeded maximum number of steps (15)"%string;
            res_retryCount := 0%Z |},
       st') /\
    oracleCalls st' = MAX_STEPS /\
    sleeps (trace st') = 0 /\
    recentActionHistory st'
    = map (fun step => (tool step, instruction step))
          (map objects (seq (MAX_STEPS - MAX_HISTORY) MAX_HISTORY)).
Proof.
  intros Horacle Hplain Hspaced Hcalm.
  set (action := fun step : BrowserStep => (tool step, instruction step)).
  destruct (executeSubtask_rule previousExtraction maxRetries
              (fun s =>
                 isSubtaskComplete s = false /\
                 steps s = map objects (seq 0 (oracleCalls s)) /\
                 retryCount s = 0%Z /\
                 oracleCalls s <= MAX_STEPS /\
                 sleeps (trace s) = 0 /\
                 recentActionHistory s
                 = sliceLast MAX_HISTORY
                     (map action (map objects (seq 0 (oracleCalls s)))))
              (fun r s' =>
                 r = {| res_status := Status.FAILED;
                        res_steps := map objects (seq 0 MAX_STEPS);
                        res_extraction := None;
                        res_error :=
                          Some "Exceeded maximum number of steps (15)"%string;
                        res_retryCount := 0%Z |} /\
                 oracleCalls s' = MAX_STEPS /\
                 sleeps (trace s') = 0 /\
                 recentActionHistory s'
                 = sliceLast MAX_HISTORY
                     (map action (map objects (seq 0 MAX_STEPS)))))
    as (result & st' & Hrun & Hres & Hcalls & Hsl & Hhist).
  - destruct (loopEntry_fields previousExtraction)
      as (Hs & Hr & Hh & Hf & Ho & Ht).
    rewrite Hs, Hr, Hh, Hf, Ho, Ht. cbn.
    repeat split; try lia.
  - intros s H. exact (proj1 H).
  - intros s control s' (Hflag & Hsteps & Hretry & Hcount & Hquiet & Hhist)
           _ Hpass.
    assert (Hlen : length (steps s) = oracleCalls s)
      by (rewrite Hsteps, length_map, length_seq; reflexivity).
    assert (Hsame : forall step, Decided env s step ->
                                 step = objects (oracleCalls s)).
    { intros step [e He | o Ho Hd Hl | o Ho Hv];
        rewrite Horacle in *; try discriminate.
      - inversion Ho; subst o.
        rewrite (proj2 (Hplain (oracleCalls s))) in Hl. discriminate.
      - inversion Ho. reflexivity. }
    assert (Hocc : oracleCalls s < MAX_STEPS ->
                   occurrences (objects (oracleCalls s))
                               (recentActionHistory s) < MAX_DUPLICATES).
    { intros Hroom.
      destruct (Nat.lt_ge_cases
                  (occurrences (objects (oracleCalls s))
                               (recentActionHistory s)) MAX_DUPLICATES)
        as [Hlt | Hge]; [exact Hlt | exfalso].
      unfold occurrences in Hge.
      rewrite Hhist, map_map, sliceLast_scripted in Hge.
      apply two_hits in Hge.
      destruct Hge as (i & j & Hi & Hij & Hj & Hpi & Hpj).
      apply sameAction_true in Hpi. apply sameAction_true in Hpj.
      unfold MAX_HISTORY, MAX_STEPS in *.
      assert (Hfar_i : oracleCalls s >= i + 3).
      { destruct (Nat.lt_ge_cases (oracleCalls s) (i + 3)) as [Hn | Hn];
          [| exact Hn].
        exfalso. apply (Hspaced i (oracleCalls s)); [lia | lia |].
        exact Hpi. }
      assert (Hfar_j : oracleCalls s >= j + 3).
      { destruct (Nat.lt_ge_cases (oracleCalls s) (j + 3)) as [Hn | Hn];
          [| exact Hn].
        exfalso. apply (Hspaced j (oracleCalls s)); [lia | lia |].
        exact Hpj. }
      apply (Hspaced i j); [lia | lia |].
      exact (eq_trans Hpi (eq_sym Hpj)). }
    inversion Hpass; subst;
      try match goal with
        | H : effect _ _ _ _ _ _ |- _ =>
            destruct H as (Es & Er & Eh & Ef & Eo & Et)
        end;
      try match goal with
        | H : Decided env s ?x |- _ =>
            pose proof (Hsame x H); subst x;
            pose proof (Hplain (oracleCalls s)) as (Hterm & Hlang)
        end;
      try match goal with
        | H : length (steps s) < MAX_STEPS |- _ =>
            pose proof (Hocc ltac:(lia))
        end;
      try absurd_pass.
    + (* the ceiling *)
      assert (Hfull : oracleCalls s' = MAX_STEPS) by lia.
      split; [| rewrite <- Hfull at 2; auto].
      unfold failedResult.
      rewrite Hsteps, Hretry, Hfull, maxStepsError_text. reflexivity.
    + (* the action returned *)
      rewrite Es, Er, Eh, Ef, Eo, Et.
      repeat split; try lia; try assumption.
      * rewrite seq_S, map_app, <- Hsteps. reflexivity.
      * rewrite sleeps_app, Hquiet.
        change (sleeps (followUp (objects (oracleCalls s))) = 0).
        apply followUp_events.
      * rewrite Hhist, pushHistory_sliceLast, seq_S, !map_app.
        reflexivity.
    + (* the browser never throws *)
      destruct (Hcalm (stagehandCalls s)
                  (tool (objects (oracleCalls s)))
                  (instruction (objects (oracleCalls s)))) as (v & Hv).
      congruence.
    + destruct (Hcalm (stagehandCalls s)
                  (tool (objects (oracleCalls s)))
                  (instruction (objects (oracleCalls s)))) as (v & Hv).
      congruence.
  - subst result. exists st'. rewrite Hhist. repeat split; assumption.
Qed.

(** ** A language model that is out of reach *)

Lemma repeat_snoc {A} (x : A) (n : nat) : repeat x n ++ [x] = repeat x (S n).
Proof. symmetry. apply repeat_cons. Qed.

(** When every request to the language model throws, [executeSubtask]
    still returns, and the result is FAILED.  Its steps are at most two
    fallback SCREENSHOT steps followed by synthetic WAIT steps, and a final
    FAIL step when the browser threw on the screenshot.  The error of the
    result is the step ceiling, the repetition of SCREENSHOT, or the
    message of the browser: what the language model threw is not
    reported. *)
Theorem dead_oracle (previousExtraction : Payload) (maxRetries : Z) :
  (forall n, exists error, generateObject env n = OracleThrows error) ->
  exists result st' shots waits final,
    executeSubtask env previousExtraction maxRetries
    = (Resolves ReturnInLoop result, st') /\
    res_status result = Status.FAILED /\
    res_steps result
    = repeat fallbackStep shots ++ repeat waitStep waits ++ final /\
    shots <= 2 /\
    ((final = [] /\
      (res_error result = Some maxStepsError \/
       res_error result
       = Some (repeatError SCREENSHOT (res_retryCount result)))) \/
     (exists n thrown,
         stagehand env n SCREENSHOT "" = ActThrows thrown /\
         final = [failStep "Exceeded maximum retry attempts"
                           (errorMessage thrown)] /\
         res_error result = Some (errorMessage thrown))).
Proof.
  intros Hdead.
  destruct (executeSubtask_rule previousExtraction maxRetries
              (fun s =>
                 Ledger s /\ isSubtaskComplete s = false /\
                 Forall (fun a => a = (SCREENSHOT, ""%string))
                        (recentActionHistory s) /\
                 exists shots waits,
                   steps s = repeat fallbackStep shots ++ repeat waitStep waits
                   /\ shots <= 2 /\ (0 < waits -> shots = 2))
              (fun result s' =>
                 exists shots waits final,
                   res_status result = Status.FAILED /\
                   res_steps result
                   = repeat fallbackStep shots ++ repeat waitStep waits
                       ++ final /\
                   shots <= 2 /\
                   ((final = [] /\
                     (res_error result = Some maxStepsError \/
                      res_error result
                      = Some (repeatError SCREENSHOT
                                          (res_retryCount result)))) \/
                    (exists n thrown,
                        stagehand env n SCREENSHOT "" = ActThrows thrown /\
                        final = [failStep "Exceeded maximum retry attempts"
                                          (errorMessage thrown)] /\
                        res_error result = Some (errorMessage thrown)))))
    as (result & st' & Hrun & shots & waits & final & H).
  - split; [apply loopEntry_ledger |].
    destruct (loopEntry_fields previousExtraction)
      as (Hs & Hr & Hh & Hf & Ho & Ht).
    rewrite Hs, Hh, Hf. repeat split; [constructor |].
    exists 0, 0. cbn. repeat split; lia.
  - intros s H. exact (proj1 (proj2 H)).
  - intros s control s'
           (Hledger & Hflag & Hhist & shots & waits & Hsteps & Hshots & Hw)
           _ Hpass.
    assert (Hfb : forall step, Decided env s step -> step = fallbackStep).
    { intros step Hd. destruct (Hdead (oracleCalls s)) as (e & He).
      apply (Decided_fun s step fallbackStep Hd).
      eapply Decided_fallback. exact He. }
    assert (Hocc : occurrences fallbackStep (recentActionHistory s)
                   = Nat.min (length (steps s)) MAX_HISTORY).
    { rewrite occurrences_all by exact Hhist.
      exact (proj1 (proj2 Hledger)). }
    assert (Hlen : length (steps s) = shots + waits)
      by (rewrite Hsteps, length_app, !repeat_length; reflexivity).
    pose proof (fun c => Pass_ledger maxRetries s s' Hledger c) as Hnext.
    inversion Hpass; subst;
      try match goal with
        | H : effect _ _ _ _ _ _ |- _ =>
            destruct H as (Es & Er & Eh & Ef & Eo & Et)
        end;
      try match goal with
        | H : Decided env s ?x |- _ =>
            pose proof (Hfb x H); subst x
        end;
      try discriminate;
      cbn [doneResult failedResult res_status res_steps res_error
           res_retryCount tool instruction fallbackStep] in *;
      rewrite ?Es, ?Eh, ?Ef.
    + (* the ceiling *)
      exists shots, waits, []. rewrite app_nil_r.
      split; [reflexivity |]. split; [exact Hsteps |].
      split; [exact Hshots |]. left. split; [reflexivity |].
      left. reflexivity.
    + (* repetition, retries exhausted *)
      exists shots, waits, []. rewrite !app_nil_r, Er.
      split; [reflexivity |]. split; [exact Hsteps |].
      split; [exact Hshots |]. left. split; [reflexivity |].
      right. reflexivity.
    + (* repetition, pause *)
      split; [apply Hnext; exact Hpass |]. split; [exact Hflag |].
      split; [apply pushHistory_Forall; [exact Hhist | reflexivity] |].
      exists shots, (S waits).
      rewrite Hsteps, <- app_assoc, repeat_snoc.
      unfold MAX_DUPLICATES, MAX_HISTORY in *.
      repeat split; try lia.
    + (* the screenshot returned *)
      split; [apply Hnext; exact Hpass |]. split; [exact Hflag |].
      split; [apply pushHistory_Forall; [exact Hhist | reflexivity] |].
      unfold MAX_DUPLICATES, MAX_HISTORY in *.
      assert (waits = 0) by lia. subst waits.
      exists (S shots), 0.
      rewrite Hsteps. cbn [repeat]. rewrite !app_nil_r.
      change (fallbackStep :: repeat fallbackStep shots)
        with (repeat fallbackStep (S shots)).
      rewrite repeat_snoc. repeat split; lia.
    + (* the screenshot threw, retries exhausted *)
      unfold MAX_DUPLICATES, MAX_HISTORY in *.
      assert (waits = 0) by lia. subst waits.
      exists (S shots), 0. eexists.
      split; [reflexivity |]. split.
      { rewrite Hsteps.
        change (repeat waitStep 0) with (@nil BrowserStep).
        rewrite app_nil_r, <- repeat_snoc, <- app_assoc. reflexivity. }
      split; [lia |]. right. eauto.
    + (* the screenshot threw, retry *)
      split; [apply Hnext; exact Hpass |]. split; [exact Hflag |].
      split; [apply pushHistory_Forall; [exact Hhist | reflexivity] |].
      unfold MAX_DUPLICATES, MAX_HISTORY in *.
      assert (waits = 0) by lia. subst waits.
      exists (S shots), 0.
      rewrite Hsteps. cbn [repeat]. rewrite !app_nil_r.
      change (fallbackStep :: repeat fallbackStep shots)
        with (repeat fallbackStep (S shots)).
      rewrite repeat_snoc. repeat split; lia.
  - exists result, st', shots, waits, final. tauto.
Qed.


(** ** Where the extraction of a result comes from *)

Ltac kept :=
  cbn [snd]; proj_m;
  repeat match goal with
    | H : extraction _ = _ |- _ => rewrite H; clear H
    end;
  proj_m; reflexivity.

(** A pass leaves the extraction as it was, or replaces it by the truthy
    value that the browser returned for an EXTRACT step. *)
Lemma iteration_extraction (maxRetries : Z) (st : State) :
  extraction (snd (iteration env maxRetries st)) = extraction st \/
  exists instr value,
    stagehand env (stagehandCalls st) EXTRACT instr = ActReturns value /\
    truthy value = true /\
    extraction (snd (iteration env maxRetries st)) = value.
Proof.
  unfold iteration, loopBody.
  cbv beta iota zeta delta [try_catch bind get].
  destruct (Nat.leb_spec MAX_STEPS (length (steps st))) as [Hmax | Hmax].
  { left. reflexivity. }
  destruct (getNextStep_decided st) as (ns & -> & Hns).
  destruct (tool_eqb_spec (tool ns) DONE) as [Hdone | Hdone].
  { run_m. left. reflexivity. }
  destruct (tool_eqb_spec (tool ns) FAIL) as [Hfail | Hfail].
  { run_m. left. reflexivity. }
  rewrite isRepeatingAction_run. proj_m.
  destruct (Nat.leb_spec MAX_DUPLICATES
              (occurrences ns (recentActionHistory st))) as [Hrep | Hrep].
  { run_m.
    destruct (Z.leb_spec maxRetries (retryCount st + 1))
      as [Hretry | Hretry].
    - left. reflexivity.
    - refreshed loopBreakScreenshot. left. kept. }
  run_m.
  rewrite (Decided_no_language st ns Hns Hdone).
  destruct (tool_eqb_spec (tool ns) CLOSE) as [Hclose | Hclose];
    cbn [negb].
  { left. reflexivity. }
  assert (Hterm : terminalTool (tool ns) = false)
    by (destruct (tool ns); congruence || reflexivity).
  rewrite executeStep_run by assumption.
  proj_m.
  destruct (stagehand env (stagehandCalls st) (tool ns) (instruction ns))
    as [value | error] eqn:Hreply.
  - destruct (tool_eqb_spec (tool ns) EXTRACT) as [Hex | Hex];
      cbn [andb].
    + destruct (truthy value) eqn:Htruthy.
      * right. exists (instruction ns), value.
        rewrite <- Hex. split; [exact Hreply |]. split; [exact Htruthy |].
        rewrite Hex. cbn [tool_eqb orb negb].
        cbv beta iota zeta delta [bind ret modify].
        refreshed updatedScreenshot. kept.
      * left. rewrite Hex. cbn [tool_eqb orb negb].
        cbv beta iota zeta delta [bind ret modify].
        refreshed updatedScreenshot. kept.
    + left.
      destruct (tool_eqb (tool ns) GOTO || tool_eqb (tool ns) NAVBACK),
               (negb (tool_eqb (tool ns) SCREENSHOT));
        cbv beta iota zeta delta [bind ret modify].
      all: repeat match goal with
        | |- context [refreshUrl env ?s] =>
            destruct (refreshUrl_run s)
              as (? & -> & ? & ? & ? & ? & ? & ? & ?)
        | |- context [refreshScreenshot env updatedScreenshot ?s] =>
            destruct (refreshScreenshot_run updatedScreenshot s eq_refl)
              as (? & -> & ? & ? & ? & ? & ? & ? & ?)
        end.
      all: kept.
  - unfold loopCatch. run_m.
    destruct (Z.leb_spec maxRetries (retryCount st + 1))
      as [Hretry | Hretry].
    + left. reflexivity.
    + refreshed recoveryScreenshot. left. kept.
Qed.

Lemma loopEntry_extraction (previousExtraction : Payload) :
  extraction (loopEntry env previousExtraction) = PNull.
Proof.
  unfold loopEntry, prologue.
  cbv beta iota zeta delta [bind try_catch throw modify].
  rewrite executeStep_run by discriminate.
  destruct (stagehand env _ _ _); reflexivity.
Qed.

(** A FAILED result carries no extraction.  The extraction of a DONE
    result is [null], or a truthy value that the browser returned for an
    EXTRACT step of the subtask: a falsy value returned for an EXTRACT step
    never replaces an earlier extraction, and the [previousExtraction] that
    was passed in plays no part. *)
Theorem extraction_provenance (previousExtraction : Payload)
        (maxRetries : Z) :
  exists result st',
    executeSubtask env previousExtraction maxRetries
    = (Resolves ReturnInLoop result, st') /\
    ((res_status result = Status.FAILED /\ res_extraction result = None) \/
     (res_status result = Status.DONE /\
      (res_extraction result = Some PNull \/
       exists n instr value,
         stagehand env n EXTRACT instr = ActReturns value /\
         truthy value = true /\
         res_extraction result = Some value))).
Proof.
  set (Origin := fun s : State =>
         extraction s = PNull \/
         exists n instr value,
           stagehand env n EXTRACT instr = ActReturns value /\
           truthy value = true /\ extraction s = value).
  assert (Hstep : forall s control s',
             Origin s ->
             iteration env maxRetries s = (inr control, s') ->
             Origin s').
  { intros s control s' Ho Hrun.
    pose proof (iteration_extraction maxRetries s) as H.
    rewrite Hrun in H. cbn [snd] in H.
    destruct H as [H | (instr & value & Hreply & Htruthy & H)].
    - unfold Origin. rewrite H. exact Ho.
    - right. eauto 6. }
  destruct (executeSubtask_rule previousExtraction maxRetries
              (fun s => isSubtaskComplete s = false /\ Origin s)
              (fun result s' =>
                 (res_status result = Status.FAILED /\
                  res_extraction result = None) \/
                 (res_status result = Status.DONE /\
                  res_extraction result = Some (extraction s') /\
                  Origin s')))
    as (result & st' & Hrun & H).
  - split; [apply loopEntry_fields |].
    left. apply loopEntry_extraction.
  - intros s H. exact (proj1 H).
  - intros s control s' [Hflag Ho] Hrun Hpass.
    pose proof (Hstep s control s' Ho Hrun) as Ho'.
    destruct (Pass_frame maxRetries s s' control Hpass) as [Hf _].
    inversion Hpass; subst; cbn [doneResult failedResult res_status
                                 res_extraction]; auto.
    all: split; [congruence | exact Ho'].
  - exists result, st'. split; [exact Hrun |].
    destruct H as [H | (Hd & He & [Ho | (n & instr & value & Hr & Ht & Ho)])].
    + left. exact H.
    + right. split; [exact Hd |]. left. rewrite He, Ho. reflexivity.
    + right. split; [exact Hd |]. right.
      exists n, instr, value. rewrite He, Ho. auto.
Qed.

End LoopFacts.

(* ================================================================= *)
(** * Runs of the scripted oracles *)

Lemma marks_length (n : nat) : String.length (Scripts.marks n) = n.
Proof. induction n as [| n IH]; cbn; congruence. Qed.

Lemma marks_injective (i j : nat) :
  Scripts.marks i = Scripts.marks j -> i = j.
Proof.
  intros H. rewrite <- (marks_length i), <- (marks_length j), H. reflexivity.
Qed.

(** The restless oracle in front of the calm browser runs into the step
    ceiling. *)
Lemma step_ceiling_witness :
  exists st',
    executeSubtask Scripts.restless PUndefined defaultMaxRetries
    = (Resolves ReturnInLoop
         {| res_status := Status.FAILED;
            res_steps := map Scripts.freshStep (seq 0 MAX_STEPS);
            res_extraction := None;
            res_error := Some "Exceeded maximum number of steps (15)"%string;
            res_retryCount := 0%Z |},
       st') /\
    oracleCalls st' = MAX_STEPS.
Proof.
  apply (step_ceiling Scripts.restless PUndefined defaultMaxRetries
           Scripts.freshStep).
  - intros n. reflexivity.
  - intros n. split; reflexivity.
  - intros i j Hij Heq. inversion Heq as [Hmarks].
    apply marks_injective in Hmarks. lia.
  - intros n method instr. exists PUndefined. reflexivity.
Defined.



(** The oracle that fails with an empty instruction: the FAILED result
    carries the empty text as its error. *)
Lemma failed_with_empty_error :
  exists result st',
    executeSubtask Scripts.silentFail PUndefined defaultMaxRetries
    = (Resolves ReturnInLoop result, st') /\
    res_status result = Status.FAILED /\
    res_error result = Some ""%string.
Proof.
  do 2 eexists. split; [vm_compute; reflexivity |].
  repeat split.
Qed.

(** The talkative oracle: its ACT step is replaced by a DONE step and is
    not executed. *)
Lemma implicit_completion_witness :
  exists st',
    iteration Scripts.talkative defaultMaxRetries
              (loopEntry Scripts.talkative PUndefined)
    = (inr (Return (doneResult st')), st') /\
    res_status (doneResult st') = Status.DONE /\
    steps st' = [convertedDoneStep Scripts.proseStep] /\
    tool (convertedDoneStep Scripts.proseStep) = DONE /\
    trace st' = [EvExec initialScreenshot; EvDecide []].
Proof.
  apply (implicit_completion Scripts.talkative defaultMaxRetries
           (loopEntry Scripts.talkative PUndefined) Scripts.proseStep).
  - vm_compute. lia.
  - reflexivity.
  - discriminate.
  - vm_compute. reflexivity.
Defined.

(** The broken browser with three retries: the first fault is retried, and
    the step that failed is the only step appended. *)
Lemma actuator_fault_handling_witness :
  exists st',
    iteration Scripts.stubbornBroken defaultMaxRetries
              (loopEntry Scripts.stubbornBroken PUndefined)
    = (inr Continue, st') /\
    retryCount st' = 1%Z /\
    steps st' = [Scripts.clickStep] /\
    trace st' = [EvExec initialScreenshot; EvDecide [];
                 EvExec Scripts.clickStep; EvSleep 1000;
                 EvExec recoveryScreenshot].
Proof.
  destruct (actuator_fault_handling Scripts.stubbornBroken defaultMaxRetries
              (loopEntry Scripts.stubbornBroken PUndefined)
              (afterDecide (loopEntry Scripts.stubbornBroken PUndefined))
              Scripts.clickStep (ThrownError "boom"))
    as (st' & Hretry & Hrun & Hsteps & Htrace & _).
  - vm_compute. lia.
  - reflexivity.
  - reflexivity.
  - vm_compute. lia.
  - reflexivity.
  - exists st'. repeat split; assumption.
Defined.

(** With [maxRetries = 1] the first fault ends the subtask, and a FAIL
    step that carries the message of the fault is appended after the step
    that failed.  With the late browser the fault comes at the fifteenth
    step: after the pause and the recovery screenshot no decision is
    requested, the loop ends on the step ceiling. *)
Lemma fault_appends_fail_step :
  (exists result st',
      iteration Scripts.stubbornBroken 1
                (loopEntry Scripts.stubbornBroken PUndefined)
      = (inr (Return result), st') /\
      res_status result = Status.FAILED /\
      res_error result = Some "boom"%string /\
      res_steps result =
        [Scripts.clickStep;
         failStep "Exceeded maximum retry attempts" "boom"] /\
      res_steps result <> [Scripts.clickStep]) /\
  (exists result st',
      executeSubtask Scripts.lateFault PUndefined defaultMaxRetries
      = (Resolves ReturnInLoop result, st') /\
      res_error result = Some "Exceeded maximum number of steps (15)"%string /\
      res_retryCount result = 1%Z /\
      oracleCalls st' = 15 /\
      last (trace st') (EvSleep 0) = EvExec recoveryScreenshot).
Proof.
  split.
  - do 2 eexists. split; [vm_compute; reflexivity |].
    repeat split. discriminate.
  - do 2 eexists. split; [vm_compute; reflexivity |].
    repeat split.
Qed.


(** The broken browser with [maxRetries = 1]: the click was attempted once,
    the browser threw, and the click is among the steps of the result. *)
Lemma attempted_step_is_recorded_witness :
  exists result st' pushed,
    whileLoop Scripts.stubbornBroken (S MAX_STEPS) 1
              (loopEntry Scripts.stubbornBroken PUndefined)
    = (inr (Returned result), st') /\
    In (EvExec Scripts.clickStep) (trace st') /\
    res_steps result = Scripts.clickStep :: pushed.
Proof.
  apply (proj2 (attempted_step_is_recorded Scripts.stubbornBroken 1
                  (loopEntry Scripts.stubbornBroken PUndefined)
                  (afterDecide (loopEntry Scripts.stubbornBroken PUndefined))
                  Scripts.clickStep
                  eq_refl ltac:(vm_compute; lia) eq_refl
                  ltac:(discriminate) ltac:(discriminate)
                  ltac:(vm_compute; lia))
           (ThrownError "boom") ltac:(discriminate) eq_refl).
Defined.

(* ================================================================= *)
(** * Properties of the EXECUTE_WORKER_TASK handler *)

Section HandlerFacts.
Variable Store : Type.
Variable updateSubtaskStatus :
  string -> string -> Status.t -> WorkerResult -> Store ->
  (Thrown + unit) * Store.

(** C7 (amended). After [executeSubtask] returns a result, the handler
    calls [updateSubtaskStatus] with the status of the result and the
    result, and when that call returns it answers with the result.  When
    [executeSubtask] throws, the handler calls [updateSubtaskStatus] with
    FAILED and a result of no steps, retry count 0 and the message of the
    thrown value, and answers with that message whether this call returns
    or throws: its failure is logged only.  When the first call, the one
    that follows a returned result, throws, the handler treats the thrown
    value like one of [executeSubtask]: it marks the subtask FAILED with
    the message of the update and answers with that message, not with the
    result. *)
Theorem facade_reports (taskId subtaskId : string) (store : Store) :
  (forall result,
      exists rest,
        snd (Route.executeWorkerTask Store updateSubtaskStatus
               taskId subtaskId (inr result) store)
        = Route.UpdateSubtaskStatus taskId subtaskId (res_status result)
                                    result :: rest) /\
  (forall result store',
      updateSubtaskStatus taskId subtaskId (res_status result) result store
      = (inr tt, store') ->
      Route.executeWorkerTask Store updateSubtaskStatus
        taskId subtaskId (inr result) store
      = (Route.Json200 result, store',
         [Route.UpdateSubtaskStatus taskId subtaskId (res_status result)
                                    result])) /\
  (forall thrown,
      exists store' logged,
        Route.executeWorkerTask Store updateSubtaskStatus
          taskId subtaskId (inl thrown) store
        = (Route.Json500
             ("Execute worker task failed: " ++ messageOrUnknown thrown),
           store',
           [Route.ConsoleError "[ERROR] Execute worker task failed:" thrown;
            Route.UpdateSubtaskStatus
              taskId subtaskId Status.FAILED
              {| res_status := Status.FAILED;
                 res_steps := [];
                 res_extraction := None;
                 res_error := Some (messageOrUnknown thrown);
                 res_retryCount := 0%Z |}] ++ logged) /\
        (logged = [] \/
         exists updateError,
           logged = [Route.ConsoleError
                       "[ERROR] Failed to update subtask status:"
                       updateError])) /\
  (forall result updateError store1,
      updateSubtaskStatus taskId subtaskId (res_status result) result store
      = (inl updateError, store1) ->
      exists store' logged,
        Route.executeWorkerTask Store updateSubtaskStatus
        taskId subtaskId (inr result) store
        = (Route.Json500
             ("Execute worker task failed: "
                ++ messageOrUnknown updateError),
           store',
           [Route.UpdateSubtaskStatus taskId subtaskId (res_status result)
                                      result;
            Route.ConsoleError "[ERROR] Execute worker task failed:"
                               updateError;
            Route.UpdateSubtaskStatus
              taskId subtaskId Status.FAILED
              (Route.forcedFailure updateError)] ++ logged)).
Proof.
  split; [| split; [| split]].
  - intros result. unfold Route.executeWorkerTask.
    destruct (updateSubtaskStatus taskId subtaskId (res_status result)
                                  result store) as [[error | []] store'].
    + unfold Route.executeWorkerTaskCatch.
      destruct (updateSubtaskStatus taskId subtaskId Status.FAILED _ store')
        as [[updateError | u] store'']; cbn; eauto.
    + cbn. eauto.
  - intros result store' Hupdate. unfold Route.executeWorkerTask.
    rewrite Hupdate. reflexivity.
  - intros thrown.
    unfold Route.executeWorkerTask, Route.executeWorkerTaskCatch.
    destruct (updateSubtaskStatus taskId subtaskId Status.FAILED
                (Route.forcedFailure thrown) store)
      as [[updateError | u] store'].
    + exists store'. eexists. split; [reflexivity | eauto].
    + exists store', []. split; [reflexivity | auto].
  - intros result updateError store1 Hupdate.
    unfold Route.executeWorkerTask. rewrite Hupdate.
    unfold Route.executeWorkerTaskCatch.
    destruct (updateSubtaskStatus taskId subtaskId Status.FAILED
                (Route.forcedFailure updateError) store1)
      as [[again | u] store'].
    + exists store'. eexists. cbn. reflexivity.
    + exists store', []. reflexivity.
Qed.

End HandlerFacts.

(** The oracle reports success at once, the subtask is unknown to the
    store: [executeSubtask] returns a DONE result, the update throws, and
    the handler answers with the failure of the update; the DONE result is
    not in the answer, and the handler asks the store to mark the subtask
    FAILED. *)
Lemma bookkeeping_masks_outcome :
  exists result st' calls,
    executeSubtask Route.finished PUndefined defaultMaxRetries
    = (Resolves ReturnInLoop result, st') /\
    res_status result = Status.DONE /\
    Route.postExecuteWorkerTask unit Route.unknownSubtask Route.finished
                                "task-1" "subtask-1" tt
    = Some (Route.Json500
              "Execute worker task failed: Subtask not found: subtask-1",
            tt, calls) /\
    nth_error calls 0
    = Some (Route.UpdateSubtaskStatus "task-1" "subtask-1" Status.DONE
                                      result) /\
    nth_error calls 2
    = Some (Route.UpdateSubtaskStatus
              "task-1" "subtask-1" Status.FAILED
              (Route.forcedFailure
                 (ThrownError "Subtask not found: subtask-1"))).
Proof.
  do 3 eexists. split; [vm_compute; reflexivity |].
  repeat split.
Qed.

(** The recording store: the DONE result is recorded and answered. *)
Lemma facade_reports_witness :
  Route.executeWorkerTask (list (string * Status.t)) Route.recording
                          "task-1" "subtask-1" (inr Route.priceFound) []
  = (Route.Json200 Route.priceFound,
     [("subtask-1"%string, Status.DONE)],
     [Route.UpdateSubtaskStatus "task-1" "subtask-1" Status.DONE
                                Route.priceFound]).
Proof.
  apply (proj1 (proj2 (facade_reports (list (string * Status.t))
                                      Route.recording
                                      "task-1" "subtask-1" []))
           Route.priceFound).
  reflexivity.
Defined.

(* ================================================================= *)
(** * Properties of createTask *)

Section PlanFacts.
Import Planner TaskManager.
Variable plan : list PlannedSubtask.

Lemma member_In (i : nat) (l : list nat) : member i l = true <-> In i l.
Proof.
  unfold member. rewrite existsb_exists. split.
  - intros (x & Hin & Heq). apply Nat.eqb_eq in Heq. subst. exact Hin.
  - intros Hin. exists i. split; [exact Hin | apply Nat.eqb_refl].
Qed.

Lemma member_false (i : nat) (l : list nat) :
  member i l = false <-> ~ In i l.
Proof.
  rewrite <- member_In. destruct (member i l); split; congruence.
Qed.

(** A declared dependency is among the subtasks waited for. *)
Lemma dependsOn_depsOf (i d : nat) :
  dependsOn plan i d -> In d (depsOf plan i).
Proof.
  intros (subtask & Hnth & Hin). unfold depsOf. rewrite Hnth.
  rewrite <- (Nat2Z.id d). apply in_map. exact Hin.
Qed.

Lemma dependsOn_position (i d : nat) :
  dependsOn plan i d -> i < length plan.
Proof.
  intros (subtask & Hnth & _). apply nth_error_Some. congruence.
Qed.

(** With all indices in range, a subtask waited for is a declared
    dependency and a position of the plan. *)
Lemma depsOf_dependsOn (i d : nat) :
  allInRange plan = true ->
  In d (depsOf plan i) ->
  dependsOn plan i d /\ d < length plan.
Proof.
  intros Hrange Hin. unfold depsOf in Hin.
  destruct (nth_error plan i) as [subtask |] eqn:Hnth; [| contradiction].
  apply in_map_iff in Hin. destruct Hin as (index & Hd & Hin).
  unfold allInRange in Hrange. rewrite forallb_forall in Hrange.
  specialize (Hrange subtask (nth_error_In _ _ Hnth)).
  rewrite forallb_forall in Hrange. specialize (Hrange index Hin).
  unfold inRange in Hrange. apply andb_true_iff in Hrange.
  destruct Hrange as (Hlow & Hhigh).
  apply Z.leb_le in Hlow. apply Z.ltb_lt in Hhigh.
  split; [| lia].
  exists subtask. split; [exact Hnth |].
  replace (Z.of_nat d) with index by lia. exact Hin.
Qed.

Lemma chain_snoc (i j d : nat) :
  chain plan i j -> dependsOn plan j d -> chain plan i d.
Proof.
  induction 1 as [i j Hij | i k j Hik _ IH]; intros Hjd.
  - eapply chain_more; [exact Hij | apply chain_one; exact Hjd].
  - eapply chain_more; [exact Hik | apply IH; exact Hjd].
Qed.

(** ** What the sort has placed *)

Lemma Placed_chain (placed : list nat) (i j : nat) :
  Placed plan placed -> In i placed -> chain plan i j -> In j placed.
Proof.
  intros (_ & _ & Hclosed & _) Hin Hchain. revert Hin.
  induction Hchain as [i d Hid | i d j Hid _ IH]; intros Hin.
  - apply (Hclosed i d Hin). apply dependsOn_depsOf. exact Hid.
  - apply IH. apply (Hclosed i d Hin). apply dependsOn_depsOf. exact Hid.
Qed.

Lemma ready_spec (placed : list nat) (i : nat) :
  ready plan placed i = true <->
  ~ In i placed /\ forall d, In d (depsOf plan i) -> In d placed.
Proof.
  unfold ready. rewrite andb_true_iff, negb_true_iff, member_false.
  rewrite forallb_forall. split; intros (Hnew & Hdeps); split; auto.
  - intros d Hd. apply member_In. auto.
  - intros d Hd. apply member_In. auto.
Qed.

Lemma Placed_extend (placed : list nat) (i : nat) :
  Placed plan placed -> i < length plan -> ready plan placed i = true ->
  Placed plan (placed ++ [i]).
Proof.
  intros Hplaced Hi Hready. pose proof Hplaced as (Hnd & Hpos & Hclosed & Hacyc).
  apply ready_spec in Hready. destruct Hready as (Hnew & Hdeps).
  repeat split.
  - apply NoDup_app; [exact Hnd | |].
    + constructor; [intros [] | constructor].
    + intros x Hx [Hxi | []]. subst. contradiction.
  - intros x Hx. apply in_app_or in Hx.
    destruct Hx as [Hx | [Hx | []]]; [auto | subst; exact Hi].
  - intros x d Hx Hd. apply in_or_app. left.
    apply in_app_or in Hx. destruct Hx as [Hx | [Hx | []]].
    + eapply Hclosed; eauto.
    + subst. auto.
  - intros x Hx Hcycle. apply in_app_or in Hx.
    destruct Hx as [Hx | [Hx | []]]; [exact (Hacyc x Hx Hcycle) | subst x].
    apply Hnew. inversion Hcycle as [a d Hid | a d b Hid Hrest]; subst.
    + apply Hdeps. apply dependsOn_depsOf. exact Hid.
    + apply (Placed_chain placed d i Hplaced); [| exact Hrest].
      apply Hdeps. apply dependsOn_depsOf. exact Hid.
Qed.

Lemma place_Placed (rounds : nat) (placed order : list nat) :
  Placed plan placed ->
  place plan rounds placed = Some order ->
  Placed plan order /\ length order = length placed + rounds.
Proof.
  revert placed. induction rounds as [| rounds IH]; intros placed Hplaced.
  - cbn. intros H. inversion H; subst. split; [exact Hplaced | lia].
  - cbn [place].
    destruct (find (ready plan placed) (seq 0 (length plan)))
      as [i |] eqn:Hfind; [| discriminate].
    intros Hrec. apply find_some in Hfind. destruct Hfind as (Hin & Hready).
    apply in_seq in Hin.
    destruct (IH (placed ++ [i])
                 (Placed_extend placed i Hplaced ltac:(lia) Hready) Hrec)
      as (Hord & Hlen).
    split; [exact Hord |]. rewrite Hlen, length_app. cbn. lia.
Qed.

(** A plan that the sort accepts has no cycle. *)
Lemma topologicalSort_sound (order : list nat) :
  topologicalSort plan = Some order -> ~ hasCycle plan.
Proof.
  unfold topologicalSort. intros Hsort (i & Hcycle).
  assert (Hempty : Placed plan []).
  { unfold Placed. split; [constructor |].
    repeat split; intros;
      match goal with H : In _ [] |- _ => destruct H end. }
  destruct (place_Placed _ _ _ Hempty Hsort)
    as ((Hnd & Hpos & Hclosed & Hacyc) & Hlen).
  cbn in Hlen.
  assert (Hall : incl (seq 0 (length plan)) order).
  { apply NoDup_length_incl; [exact Hnd | rewrite length_seq; lia |].
    intros x Hx. apply in_seq. specialize (Hpos x Hx). lia. }
  apply (Hacyc i); [| exact Hcycle].
  apply Hall. apply in_seq.
  inversion Hcycle as [a d Hid | a d b Hid _]; subst;
    apply dependsOn_position in Hid; lia.
Qed.

(** ** A plan without a cycle can be sorted *)

Lemma forallb_false_exists {A} (f : A -> bool) (l : list A) :
  forallb f l = false -> exists x, In x l /\ f x = false.
Proof.
  induction l as [| a l IH]; cbn; [discriminate |].
  destruct (f a) eqn:Hfa; cbn.
  - intros H. destruct (IH H) as (x & Hin & Hx). eauto.
  - intros _. eauto.
Qed.

(** The sort is stuck on [placed]: every position that is not placed
    waits for a position that is not placed. *)
Lemma stuck_successor (placed : list nat) :
  allInRange plan = true ->
  find (ready plan placed) (seq 0 (length plan)) = None ->
  forall i, i < length plan -> ~ In i placed ->
            exists d, dependsOn plan i d /\ d < length plan /\ ~ In d placed.
Proof.
  intros Hrange Hfind i Hi Hnew.
  pose proof (find_none _ _ Hfind i ltac:(apply in_seq; lia)) as Hready.
  unfold ready in Hready. apply andb_false_iff in Hready.
  destruct Hready as [Hready | Hready].
  - apply negb_false_iff, member_In in Hready. contradiction.
  - apply forallb_false_exists in Hready.
    destruct Hready as (d & Hd & Hout). apply member_false in Hout.
    destruct (depsOf_dependsOn i d Hrange Hd). eauto.
Qed.

(** Following the dependencies of positions that are not placed, from
    [i] and with the positions [visited] behind, ends on a cycle within
    [budget] steps. *)
Lemma stuck_cycle (placed : list nat) :
  (forall i, i < length plan -> ~ In i placed ->
             exists d, dependsOn plan i d /\ d < length plan /\
                       ~ In d placed) ->
  forall budget visited i,
    length plan <= budget + length visited ->
    NoDup visited ->
    (forall v, In v visited -> v < length plan /\ chain plan v i) ->
    i < length plan -> ~ In i placed ->
    hasCycle plan.
Proof.
  intros Hnext. induction budget as [| budget IH];
    intros visited i Hbudget Hnd Hreach Hi Hnew.
  - (* every position is behind, [i] among them *)
    assert (Hin : In i visited).
    { apply (NoDup_length_incl (l := visited) (l' := seq 0 (length plan)));
        [exact Hnd | rewrite length_seq; lia | | apply in_seq; lia].
      intros v Hv. apply in_seq. destruct (Hreach v Hv). lia. }
    exists i. exact (proj2 (Hreach i Hin)).
  - destruct (in_dec Nat.eq_dec i visited) as [Hin | Hout].
    + exists i. exact (proj2 (Hreach i Hin)).
    + destruct (Hnext i Hi Hnew) as (d & Hid & Hd & Hdnew).
      apply (IH (i :: visited) d).
      * cbn [length]. lia.
      * constructor; assumption.
      * intros v [Hv | Hv].
        -- subst v. split; [exact Hi | apply chain_one; exact Hid].
        -- destruct (Hreach v Hv) as (Hvpos & Hvi).
           split; [exact Hvpos | eapply chain_snoc; eauto].
      * exact Hd.
      * exact Hdnew.
Qed.

Lemma place_complete (rounds : nat) (placed : list nat) :
  allInRange plan = true -> ~ hasCycle plan ->
  Placed plan placed ->
  length placed + rounds = length plan ->
  exists order, place plan rounds placed = Some order.
Proof.
  intros Hrange Hacyclic. revert placed.
  induction rounds as [| rounds IH]; intros placed Hplaced Hlen.
  - cbn. eauto.
  - cbn [place].
    destruct (find (ready plan placed) (seq 0 (length plan)))
      as [i |] eqn:Hfind.
    + pose proof (find_some _ _ Hfind) as (Hin & Hready).
      apply in_seq in Hin.
      apply IH.
      * apply Placed_extend; [exact Hplaced | lia | exact Hready].
      * rewrite length_app. cbn. lia.
    + exfalso. apply Hacyclic.
      pose proof (stuck_successor placed Hrange Hfind) as Hnext.
      destruct Hplaced as (Hnd & Hpos & _).
      (* a position that is not placed *)
      destruct (find (fun j => negb (member j placed))
                     (seq 0 (length plan))) as [start |] eqn:Hstart.
      * apply find_some in Hstart. destruct Hstart as (Hin & Hnew).
        apply in_seq in Hin. apply negb_true_iff, member_false in Hnew.
        apply (stuck_cycle placed Hnext (length plan) [] start);
          [lia | constructor | intros v [] | lia | exact Hnew].
      * exfalso.
        assert (Hall : incl (seq 0 (length plan)) placed).
        { intros j Hj. pose proof (find_none _ _ Hstart j Hj) as H.
          apply negb_false_iff, member_In in H. exact H. }
        pose proof (NoDup_incl_length (seq_NoDup _ _) Hall) as Hle.
        rewrite length_seq in Hle. lia.
Qed.

(** A plan whose indices are in range and that has no cycle is sorted. *)
Lemma topologicalSort_complete :
  allInRange plan = true -> ~ hasCycle plan ->
  exists order, topologicalSort plan = Some order.
Proof.
  intros Hrange Hacyclic. unfold topologicalSort.
  apply place_complete; [exact Hrange | exact Hacyclic | | reflexivity].
  unfold Placed. split; [constructor |].
  repeat split; intros;
    match goal with H : In _ [] |- _ => destruct H end.
Qed.

(** ** Indices out of range *)

Lemma allInRange_spec : allInRange plan = true <-> ~ hasOutOfRange plan.
Proof.
  unfold allInRange, hasOutOfRange. rewrite forallb_forall. split.
  - intros Hall (subtask & index & Hs & Hi & Hout).
    specialize (Hall subtask Hs). rewrite forallb_forall in Hall.
    specialize (Hall index Hi). unfold inRange in Hall.
    apply andb_true_iff in Hall. destruct Hall as (Hlow & Hhigh).
    apply Z.leb_le in Hlow. apply Z.ltb_lt in Hhigh. lia.
  - intros Hnone subtask Hs. apply forallb_forall. intros index Hi.
    unfold inRange. apply andb_true_iff.
    rewrite Z.leb_le, Z.ltb_lt.
    destruct (Z_lt_dec index 0) as [Hneg | Hpos];
      [exfalso; apply Hnone; eauto 6 |].
    destruct (Z_le_dec (Z.of_nat (length plan)) index) as [Hbig | Hsmall];
      [exfalso; apply Hnone; eauto 6 | lia].
Qed.

End PlanFacts.

Section CreateTaskFacts.
Import Planner TaskManager.

Lemma mapFrom_length {A B} (f : A -> nat -> B) (index : nat) (l : list A) :
  length (mapFrom f index l) = length l.
Proof.
  revert index. induction l as [| x l IH]; intros index; cbn;
    [reflexivity | rewrite IH; reflexivity].
Qed.

Lemma mapFrom_nth_error {A B} (f : A -> nat -> B) (index : nat) (l : list A)
      (i : nat) (x : A) :
  nth_error l i = Some x ->
  nth_error (mapFrom f index l) i = Some (f x (index + i)).
Proof.
  revert index i. induction l as [| y l IH]; intros index i Hnth.
  - destruct i; discriminate.
  - destruct i as [| i]; cbn in *.
    + inversion Hnth. rewrite Nat.add_0_r. reflexivity.
    + rewrite (IH (S index) i Hnth). f_equal. f_equal. lia.
Qed.

(** C6. [createTask] accepts every plan that has a subtask, whose declared
    dependency indices are all positions of the plan and that has no
    dependency cycle: the task has one subtask per planned subtask, in plan
    order, the subtask at position [i] (from 0) has the id
    ["subtask-" ++ (i + 1)] and the status PENDING, and each declared index
    is resolved into the id of the subtask at that position.  It rejects
    with [InvalidPlan] every plan with an index out of range or with a
    dependency cycle, and the plan without subtasks. *)
Theorem createTask_validation (taskId taskGoal sessionId : string)
        (plan : PlanObject) :
  (o_subtasks plan <> [] ->
   ~ hasOutOfRange (o_subtasks plan) ->
   ~ hasCycle (o_subtasks plan) ->
   exists task,
     createTask taskId taskGoal plan sessionId = inr task /\
     task_status task = Status.PENDING /\
     length (task_subtasks task) = length (o_subtasks plan) /\
     forall i planned,
       nth_error (o_subtasks plan) i = Some planned ->
       exists subtask,
         nth_error (task_subtasks task) i = Some subtask /\
         id subtask = ("subtask-" ++ numToString (Z.of_nat i + 1))%string /\
         status subtask = Status.PENDING /\
         description subtask = p_description planned /\
         goal subtask = p_goal planned /\
         match p_dependencies planned with
         | None => dependencies subtask = None
         | Some indices =>
             exists ids,
               dependencies subtask = Some ids /\
               length ids = length indices /\
               forall k index,
                 nth_error indices k = Some index ->
                 exists target,
                   nth_error (task_subtasks task) (Z.to_nat index)
                   = Some target /\
                   nth_error ids k = Some (id target)
         end) /\
  (hasOutOfRange (o_subtasks plan) \/ hasCycle (o_subtasks plan) ->
   createTask taskId taskGoal plan sessionId = inl InvalidPlan) /\
  (o_subtasks plan = [] ->
   createTask taskId taskGoal plan sessionId = inl InvalidPlan).
Proof.
  split; [| split].
  - intros Hsome Hrange Hacyclic.
    apply allInRange_spec in Hrange.
    destruct (topologicalSort_complete (o_subtasks plan) Hrange Hacyclic)
      as (order & Hsort).
    unfold createTask. rewrite Hrange, Hsort. cbn [negb].
    destruct (o_subtasks plan) as [| first rest] eqn:Hplan;
      [contradiction |]. rewrite <- Hplan in *.
    eexists. split; [reflexivity |]. cbn [task_subtasks task_status].
    split; [reflexivity |]. split; [apply mapFrom_length |].
    intros i planned Hnth.
    exists (toSubtask planned i).
    split; [exact (mapFrom_nth_error toSubtask 0 _ i planned Hnth) |].
    split; [reflexivity |]. split; [reflexivity |].
    split; [reflexivity |]. split; [reflexivity |].
    cbn [toSubtask dependencies].
    destruct (p_dependencies planned) as [indices |] eqn:Hdeps;
      cbn [option_map]; [| reflexivity].
    eexists. split; [reflexivity |]. split; [apply length_map |].
    intros k index Hk.
    assert (Hin : (0 <= index < Z.of_nat (length (o_subtasks plan)))%Z).
    { unfold allInRange in Hrange. rewrite forallb_forall in Hrange.
      specialize (Hrange planned (nth_error_In _ _ Hnth)).
      rewrite forallb_forall in Hrange.
      assert (Hdecl : In index (declared planned)).
      { unfold declared. rewrite Hdeps. exact (nth_error_In _ _ Hk). }
      specialize (Hrange index Hdecl). unfold inRange in Hrange.
      apply andb_true_iff in Hrange. destruct Hrange as (Hlow & Hhigh).
      apply Z.leb_le in Hlow. apply Z.ltb_lt in Hhigh. lia. }
    destruct (nth_error (o_subtasks plan) (Z.to_nat index))
      as [other |] eqn:Hother.
    + exists (toSubtask other (Z.to_nat index)).
      split; [exact (mapFrom_nth_error toSubtask 0 _ _ other Hother) |].
      rewrite (map_nth_error subtaskId k indices Hk).
      cbn [toSubtask id]. rewrite Z2Nat.id by lia. reflexivity.
    + apply nth_error_None in Hother. lia.
  - intros Hbad. unfold createTask.
    destruct (o_subtasks plan) as [| first rest] eqn:Hplan;
      [reflexivity |]. rewrite <- Hplan in *.
    destruct (allInRange (o_subtasks plan)) eqn:Hrange; [| reflexivity].
    cbn [negb].
    destruct (topologicalSort (o_subtasks plan)) as [order |] eqn:Hsort;
      [| reflexivity].
    exfalso. destruct Hbad as [Hout | Hcycle].
    + apply allInRange_spec in Hrange. contradiction.
    + exact (topologicalSort_sound _ order Hsort Hcycle).
  - intros Hempty. unfold createTask. rewrite Hempty. reflexivity.
Qed.

End CreateTaskFacts.

(** The plan A, then B and C after A, is accepted with the ids
    subtask-1, subtask-2 and subtask-3, and B waits for subtask-1. *)
Lemma createTask_validation_witness :
  exists task,
    TaskManager.createTask "task-1" "Check the price" Plans.fanOut "session"
    = inr task /\
    map Planner.id (TaskManager.task_subtasks task)
    = ["subtask-1"; "subtask-2"; "subtask-3"]%string /\
    map Planner.status (TaskManager.task_subtasks task)
    = [Status.PENDING; Status.PENDING; Status.PENDING] /\
    map Planner.dependencies (TaskManager.task_subtasks task)
    = [None; Some ["subtask-1"%string]; Some ["subtask-1"%string]].
Proof.
  destruct (proj1 (createTask_validation "task-1" "Check the price" "session"
                                         Plans.fanOut))
    as (task & Hcreate & _).
  - discriminate.
  - apply allInRange_spec. reflexivity.
  - intros Hcycle.
    exact (topologicalSort_sound (Planner.o_subtasks Plans.fanOut)
                                 [0; 1; 2] eq_refl Hcycle).
  - exists task. split; [exact Hcreate |].
    vm_compute in Hcreate. inversion Hcreate. repeat split.
Defined.

(** The plans of the two ways to fail are rejected. *)
Lemma createTask_rejects :
  TaskManager.createTask "task-1" "Wait" Plans.deadlock "session"
  = inl TaskManager.InvalidPlan /\
  TaskManager.createTask "task-1" "Wait" Plans.dangling "session"
  = inl TaskManager.InvalidPlan /\
  TaskManager.hasCycle (Planner.o_subtasks Plans.deadlock) /\
  TaskManager.hasOutOfRange (Planner.o_subtasks Plans.dangling).
Proof.
  split; [reflexivity |]. split; [reflexivity |]. split.
  - exists 0. apply TaskManager.chain_more with (d := 1).
    + eexists. split; [reflexivity |]. left. reflexivity.
    + apply TaskManager.chain_one. eexists. split; [reflexivity |].
      left. reflexivity.
  - do 2 eexists. split; [left; reflexivity |].
    split; [left; reflexivity |]. right. cbn. lia.
Qed.

(* ================================================================= *)
(** * The budget and the shape of a subtask *)

Lemma nth_error_scripted {A} (f : nat -> A) (count n : nat) (x : A) :
  nth_error (map f (seq 0 count)) n = Some x -> n < count /\ x = f n.
Proof.
  intros H.
  assert (Hn : n < length (map f (seq 0 count)))
    by (apply nth_error_Some; congruence).
  rewrite length_map, length_seq in Hn.
  split; [exact Hn |].
  rewrite nth_error_map in H.
  destruct (nth_error (seq 0 count) n) as [m |] eqn:E; [| discriminate].
  apply (nth_error_nth _ _ 0) in E. rewrite seq_nth in E by exact Hn.
  cbn in H, E. subst m. congruence.
Qed.

(** The language model is asked at most [MAX_STEPS] times in one subtask,
    whatever it answers and whatever the browser does.  The n-th request
    (from 0) is made with exactly n previous steps, which are the first n
    steps of the result: every pass that asks the model and continues
    records one step, and no recorded step is ever removed or changed. *)
Theorem oracle_budget (env : Env) (previousExtraction : Payload)
        (maxRetries : Z) :
  exists result st',
    executeSubtask env previousExtraction maxRetries
    = (Resolves ReturnInLoop result, st') /\
    oracleCalls st' <= MAX_STEPS /\
    length (decisions (trace st')) = oracleCalls st' /\
    (forall n previousSteps,
        nth_error (decisions (trace st')) n = Some previousSteps ->
        n < MAX_STEPS /\
        previousSteps = firstn n (res_steps result) /\
        length previousSteps = n).
Proof.
  destruct (oracle_budget_run env previousExtraction maxRetries)
    as (result & st' & Hrun & Hcalls & Hsteps & Hdec & _).
  exists result, st'. split; [exact Hrun |]. split; [exact Hcalls |].
  split; [rewrite Hdec, length_map, length_seq; reflexivity |].
  intros n previousSteps Hn. rewrite Hdec in Hn.
  apply nth_error_scripted in Hn. destruct Hn as [Hn ->].
  split; [lia |]. split; [reflexivity |].
  rewrite length_firstn. lia.
Qed.

(** [executeStep] is called at most 1 + 3 * [MAX_STEPS] = 46 times in one
    subtask: once before the loop and at most three times for each step
    (the action, the URL after a navigation, the screenshot).  The bound
    is reached by an oracle that navigates to a new address in every
    step. *)
Theorem browser_budget :
  (forall env previousExtraction maxRetries,
      execs (trace (snd (executeSubtask env previousExtraction maxRetries)))
      <= 1 + 3 * MAX_STEPS) /\
  execs (trace (snd (executeSubtask Scripts.wandering PUndefined
                                    defaultMaxRetries)))
  = 1 + 3 * MAX_STEPS.
Proof.
  split.
  - intros env previousExtraction maxRetries.
    destruct (oracle_budget_run env previousExtraction maxRetries)
      as (result & st' & Hrun & _ & _ & _ & Hexecs & _).
    rewrite Hrun. exact Hexecs.
  - vm_compute. reflexivity.
Qed.

(** The steps of a result.  There are at most [MAX_STEPS] + 1 of them;
    only the last one can have the tool DONE or FAIL; the result is DONE
    exactly when its last step has the tool DONE; and a CLOSE step is
    always the last but one, followed by the DONE step that the loop
    appends for it.  A result can indeed hold 16 steps, one more than the
    ceiling that its error names: the fifteenth action is recorded, throws
    and is followed by the FAIL step. *)
Theorem result_steps_shape :
  (forall env previousExtraction maxRetries,
      exists result st',
        executeSubtask env previousExtraction maxRetries
        = (Resolves ReturnInLoop result, st') /\
        length (res_steps result) <= S MAX_STEPS /\
        Forall (fun step => closingTool (tool step) = false)
               (removelast (res_steps result)) /\
        (res_status result = Status.DONE <->
         exists front step,
           res_steps result = front ++ [step] /\ tool step = DONE) /\
        (forall front step back,
            res_steps result = front ++ step :: back ->
            tool step = CLOSE ->
            back = [doneStep "Based on CLOSE request from agent"])) /\
  (exists result st',
      executeSubtask Scripts.lateFault PUndefined 1
      = (Resolves ReturnInLoop result, st') /\
      length (res_steps result) = S MAX_STEPS).
Proof.
  split.
  - intros env previousExtraction maxRetries.
    apply result_shape_run.
  - do 2 eexists. split; [vm_compute; reflexivity |]. reflexivity.
Qed.

(* ================================================================= *)
(** * Runs of the scripted oracles, continued *)

Lemma pause_raises_warning_witness :
  exists st',
    iteration Scripts.stubborn defaultMaxRetries Scripts.twice
    = (inr Continue, st') /\
    steps st' = [Scripts.clickStep; Scripts.clickStep; waitStep] /\
    hasPossibleLoop (steps st') = true.
Proof.
  destruct (pause_raises_warning Scripts.stubborn PUndefined
              defaultMaxRetries Scripts.twice (afterDecide Scripts.twice)
              Scripts.clickStep)
    as (st' & Hrun & Hsteps & _ & Hwarn & _).
  - eapply Reachable_pass;
      [eapply Reachable_pass; [apply Reachable_entry | |] | |];
      vm_compute; reflexivity.
  - vm_compute. lia.
  - vm_compute. reflexivity.
  - vm_compute. lia.
  - vm_compute. reflexivity.
  - exists st'. split; [exact Hrun |]. split; [exact Hsteps | exact Hwarn].
Defined.

Lemma spaced_repeats_undetected_witness :
  exists st',
    executeSubtask Scripts.cycling PUndefined defaultMaxRetries
    = (Resolves ReturnInLoop
         {| res_status := Status.FAILED;
            res_steps := map Scripts.cycleStep (seq 0 MAX_STEPS);
            res_extraction := None;
            res_error := Some "Exceeded maximum number of steps (15)"%string;
            res_retryCount := 0%Z |},
       st') /\
    oracleCalls st' = MAX_STEPS /\
    sleeps (trace st') = 0.
Proof.
  destruct (spaced_repeats_undetected Scripts.cycling PUndefined
              defaultMaxRetries Scripts.cycleStep)
    as (st' & Hrun & Hcalls & Hquiet & _).
  - intros n. reflexivity.
  - intros n. unfold Scripts.cycleStep.
    destruct (n mod 3) as [| [| r]]; split; reflexivity.
  - intros i j [Hij Hj] Hnear.
    assert (Hd : j = i + 1 \/ j = i + 2) by lia.
    unfold MAX_STEPS in Hj.
    do 15 (destruct i as [| i];
           [destruct Hd; subst j; intros H; vm_compute in H; discriminate H
           |]).
    lia.
  - intros n method instr. eexists. reflexivity.
  - exists st'. auto.
Defined.

Lemma dead_oracle_witness :
  exists result st' shots waits final,
    executeSubtask Scripts.mute PUndefined defaultMaxRetries
    = (Resolves ReturnInLoop result, st') /\
    res_status result = Status.FAILED /\
    res_steps result
    = repeat fallbackStep shots ++ repeat waitStep waits ++ final /\
    shots <= 2.
Proof.
  destruct (dead_oracle Scripts.mute PUndefined defaultMaxRetries)
    as (result & st' & shots & waits & final & Hrun & Hs & Hsteps & Hk & _).
  - intros n. eexists. reflexivity.
  - exists result, st', shots, waits, final. auto.
Defined.
